(** * Dealer hygiene audit domain: value objects, evaluator, audit entity
      and the in-memory repository

    A shallow embedding of the domain layer of the backend
    ([backend/src/domain]), of the in-memory audit repository
    ([backend/src/infrastructure/persistence]) and of the upload checks
    of the vision route ([backend/src/api/routes]), with the properties
    the specification states and further ones the code shows.

    Modelling conventions.
    - A Python [float] is a rational [Q]; comparisons are exact, and the
      sum and the quotient of the confidence aggregation are the exact
      ones (no rounding, no NaN, no infinities, no signed zero).  Two
      scores are compared with [==] ([Qeq]).
    - A Python [int] is a [Z]; [len] of a list is [Z.of_nat (length _)].
    - A Python [str] is a [string]; [str.lower] folds the ASCII letters
      and leaves every other character alone.
    - [Optional[T]] is [option T], [None] being [None].
    - An exception is the [Raise] outcome of a [result].
    - [sorted] is modelled by what it returns, the stable arrangement
      of the list in the requested order.
    - A [dict] is the list of its items in insertion order.
    - [datetime.utcnow()] and [uuid4()] are read from the outside: the
      operations that call them take the value read as an argument.
    - Where objects are shared (the repository keeps the audits it is
      given), an object is a reference into a heap. *)

From Stdlib Require Import ZArith QArith Qround Lqa Lia.
From Stdlib Require Import List Bool String Ascii DecimalString.
From Stdlib Require Import Permutation Sorted.
Import ListNotations.

Local Open Scope string_scope.
Local Open Scope list_scope.
Local Open Scope Z_scope.

(** ** Outcomes of fallible code *)

Inductive exn : Type :=
| ValueError (msg : string).

Inductive result (A : Type) : Type :=
| Ok (a : A)
| Raise (e : exn).

Arguments Ok {A} a.
Arguments Raise {A} e.

Definition bind {A B : Type} (r : result A) (k : A -> result B) : result B :=
  match r with
  | Ok a => k a
  | Raise e => Raise e
  end.

Notation "x <- r ;; k" := (bind r (fun x => k))
  (at level 61, r at next level, right associativity).

(** ** Python built-ins used by the domain code *)

Definition UUID := Z.
Definition datetime := Z.

(** A keyword argument with a default: [None] stands for an argument
    that is left out. *)
Definition default {A : Type} (o : option A) (d : A) : A :=
  match o with
  | Some a => a
  | None => d
  end.

(** Truth value of an [int]: zero is false. *)
Definition int_truthy (n : Z) : bool := negb (n =? 0).

(** Truth value of an [Optional[str]]: [None] and the empty string are false. *)
Definition str_truthy (s : option string) : bool :=
  match s with
  | None => false
  | Some EmptyString => false
  | Some (String _ _) => true
  end.

(** [str.lower] on one character. *)
Definition lower_ascii (c : ascii) : ascii :=
  let n := nat_of_ascii c in
  if ((65 <=? n) && (n <=? 90))%nat then ascii_of_nat (n + 32) else c.

(** [str.lower]. *)
Fixpoint lower (s : string) : string :=
  match s with
  | EmptyString => EmptyString
  | String c s' => String (lower_ascii c) (lower s')
  end.

(** [needle in hay] on strings: [needle] occurs in [hay] at some offset. *)
Fixpoint contains (needle hay : string) : bool :=
  prefix needle hay
  || match hay with
     | EmptyString => false
     | String _ hay' => contains needle hay'
     end.

(** [sum(xs)]: accumulation from the left, starting at zero. *)
Definition sum (xs : list Q) : Q := fold_left Qplus xs 0%Q.

(** [sorted(xs, key=key, reverse=True)]: the stable sort by decreasing
    key.  An element is put in front of the first element whose key is
    not greater than its own, so elements with equal keys keep the order
    they had in [xs]. *)
Section Sorted.
Context {A : Type} (key : A -> Q).

Fixpoint insert_desc (x : A) (l : list A) : list A :=
  match l with
  | [] => [x]
  | y :: l' =>
      if Qle_bool (key y) (key x) then x :: y :: l'
      else y :: insert_desc x l'
  end.

Fixpoint sorted_desc (l : list A) : list A :=
  match l with
  | [] => []
  | x :: l' => insert_desc x (sorted_desc l')
  end.
End Sorted.

(** [sorted(xs, key=key)] and [xs.sort(key=key)]: the stable sort by
    increasing key.  An element is put in front of the first element
    whose key is not smaller than its own. *)
Section SortedAsc.
Context {A : Type} (key : A -> Q).

Fixpoint insert_asc (x : A) (l : list A) : list A :=
  match l with
  | [] => [x]
  | y :: l' =>
      if Qle_bool (key x) (key y) then x :: y :: l'
      else y :: insert_asc x l'
  end.

Fixpoint sorted_asc (l : list A) : list A :=
  match l with
  | [] => []
  | x :: l' => insert_asc x (sorted_asc l')
  end.
End SortedAsc.

(** [max(xs, key=key)]: the first element whose key no other element
    exceeds; the running maximum is replaced by a strictly greater
    element only.  An empty sequence raises [ValueError]. *)
Fixpoint max_from {A : Type} (key : A -> Q) (best : A) (l : list A) : A :=
  match l with
  | [] => best
  | x :: l' => max_from key (if Qle_bool (key x) (key best) then best else x) l'
  end.

Definition py_max {A : Type} (key : A -> Q) (l : list A) : result A :=
  match l with
  | [] => Raise (ValueError "max() arg is an empty sequence")
  | x :: l' => Ok (max_from key x l')
  end.

(** [xs[:stop]]: a negative [stop] counts from the end of the list. *)
Definition slice_to {A : Type} (stop : Z) (l : list A) : list A :=
  if stop <? 0
  then firstn (Z.to_nat (Z.of_nat (List.length l) + stop)) l
  else firstn (Z.to_nat stop) l.

(** A [dict], as the list of its items in insertion order.  Setting a
    key that is present replaces its value where it stands; a new key
    goes to the end. *)
Section Dict.
Context {K V : Type} (eqb : K -> K -> bool).

(** [d.get(k)] *)
Fixpoint dict_get (k : K) (d : list (K * V)) : option V :=
  match d with
  | [] => None
  | (k', v) :: d' => if eqb k' k then Some v else dict_get k d'
  end.

(** [d[k] = v] *)
Fixpoint dict_set (k : K) (v : V) (d : list (K * V)) : list (K * V) :=
  match d with
  | [] => [(k, v)]
  | (k', v') :: d' =>
      if eqb k' k then (k', v) :: d' else (k', v') :: dict_set k v d'
  end.

(** [d.values()] *)
Definition dict_values (d : list (K * V)) : list V := map snd d.

(** [d.keys()] *)
Definition dict_keys (d : list (K * V)) : list K := map fst d.
End Dict.

(** Rounding of a rational to the nearest integer, ties to even: the
    rounding of the [.2f] format. *)
Definition round_half_even (q : Q) : Z :=
  let f := Qfloor q in
  match Qcompare (q - inject_Z f) (1 # 2) with
  | Lt => f
  | Gt => f + 1
  | Eq => if Z.even f then f else f + 1
  end.

Definition digits (n : Z) : string := NilZero.string_of_uint (N.to_uint (Z.to_N n)).

(** [f"{v:.2f}"] for a non-negative [v]. *)
Definition format_2f (v : Q) : string :=
  let n := round_half_even (v * 100) in
  let frac := n mod 100 in
  (digits (n / 100) ++ "." ++ (if (frac <? 10)%Z then "0" else "") ++ digits frac)%string.

(** [f"{v:.1f}"] for a non-negative [v]. *)
Definition format_1f (v : Q) : string :=
  let n := round_half_even (v * 10) in
  (digits (n / 10) ++ "." ++ digits (n mod 10))%string.

(** ** value_objects/confidence_score.py *)

Module ConfidenceScore.

(** [0.0 <= value <= 100.0] *)
Definition in_range (v : Q) : bool := Qle_bool 0 v && Qle_bool v 100.

(** The frozen dataclass: [__post_init__] raises outside the range, so
    a score that exists carries a value in the range. *)
Record t : Type := mk { value : Q; value_ok : in_range value = true }.

(** [ConfidenceScore(value=v)], with the check of [__post_init__]. *)
Definition new (v : Q) : result t :=
  match bool_dec (in_range v) true with
  | left ok => Ok (mk v ok)
  | right _ => Raise (ValueError "Confidence score must be between 0 and 100")
  end.

Definition is_above_threshold (self : t) (threshold : Q) : bool :=
  Qle_bool threshold (value self).

Definition as_percentage (self : t) : string :=
  (format_2f (value self) ++ "%")%string.

Definition from_rekognition (score : Q) : result t := new score.


End ConfidenceScore.

(** ** value_objects/cleanliness_status.py *)

Inductive CleanlinessStatus : Type :=
| CLEAN
| NOT_CLEAN
| REQUIRES_MANUAL_REVIEW
| INSUFFICIENT_DATA.

Definition is_compliant (self : CleanlinessStatus) : bool :=
  match self with
  | CLEAN => true
  | _ => false
  end.

Definition requires_human_intervention (self : CleanlinessStatus) : bool :=
  match self with
  | REQUIRES_MANUAL_REVIEW | INSUFFICIENT_DATA => true
  | _ => false
  end.

(** The members of the enumeration, in the order of their definition,
    and the string each one is. *)
Definition all_statuses : list CleanlinessStatus :=
  [CLEAN; NOT_CLEAN; REQUIRES_MANUAL_REVIEW; INSUFFICIENT_DATA].

Definition status_value (self : CleanlinessStatus) : string :=
  match self with
  | CLEAN => "CLEAN"
  | NOT_CLEAN => "NOT_CLEAN"
  | REQUIRES_MANUAL_REVIEW => "REQUIRES_MANUAL_REVIEW"
  | INSUFFICIENT_DATA => "INSUFFICIENT_DATA"
  end.

(** [a == b] on two statuses. *)
Definition status_eqb (a b : CleanlinessStatus) : bool :=
  match a, b with
  | CLEAN, CLEAN
  | NOT_CLEAN, NOT_CLEAN
  | REQUIRES_MANUAL_REVIEW, REQUIRES_MANUAL_REVIEW
  | INSUFFICIENT_DATA, INSUFFICIENT_DATA => true
  | _, _ => false
  end.

Definition from_evaluation (negative_labels : list string)
    (confidence_below_threshold : bool) (manual_override : option bool)
  : CleanlinessStatus :=
  match manual_override with
  | Some b => if b then CLEAN else NOT_CLEAN
  | None =>
      if confidence_below_threshold then REQUIRES_MANUAL_REVIEW
      else
        match negative_labels with
        | _ :: _ => NOT_CLEAN
        | [] => CLEAN
        end
  end.

(** ** value_objects/image_metadata.py *)

Module ImageMetadata.

Record t : Type := mk {
  image_id : UUID;
  dealer_id : string;
  checkpoint_id : string;
  s3_bucket : string;
  s3_key : string;
  uploader_id : string;
  captured_at : datetime;
  uploaded_at : datetime;
  file_size_bytes : Z;
  content_type : string;
  width_px : option Z;
  height_px : option Z
}.

Definition s3_uri (self : t) : string :=
  ("s3://" ++ s3_bucket self ++ "/" ++ s3_key self)%string.

(** [if self.width_px and self.height_px:] tests the truth value of
    the two dimensions: the resolution is looked at when both are
    present and both are nonzero. *)
Definition is_valid_for_analysis (self : t) : bool :=
  if file_size_bytes self >? 15 * 1024 * 1024 then false
  else
    match width_px self, height_px self with
    | Some w, Some h =>
        if int_truthy w && int_truthy h
        then if (w <? 640) || (h <? 480) then false else true
        else true
    | _, _ => true
    end.

(** A [datetime] counts microseconds, the resolution of Python's
    [datetime]; the difference of two is a [timedelta], whose [days] is
    the number of whole days in it, rounded down (a negative difference
    of less than a day has [days = -1]). *)
Definition microseconds_per_day : Z := 86400 * 1000000.

Definition age_in_days (self : t) (reference_time : datetime) : Z :=
  let delta := reference_time - captured_at self in
  delta / microseconds_per_day.

End ImageMetadata.

(** ** ports/vision_provider.py *)

Module VisionLabel.
Record t : Type := mk {
  name : string;
  confidence : ConfidenceScore.t;
  category : string
}.
End VisionLabel.

Module VisionAnalysisResult.
Record t : Type := mk {
  labels : list VisionLabel.t;
  moderation_labels : option (list VisionLabel.t);
  text_detections : option (list string);
  provider_name : string;
  model_version : string;
  processing_time_ms : Z
}.

Definition highest_confidence_label (self : t) : result VisionLabel.t :=
  py_max (fun x => ConfidenceScore.value (VisionLabel.confidence x)) (labels self).
End VisionAnalysisResult.

(** ** entities/audit_result.py *)

Module DetectedLabel.
Record t : Type := mk {
  name : string;
  confidence : ConfidenceScore.t;
  is_negative : bool
}.
End DetectedLabel.

Module AuditResult.

Record t : Type := mk {
  image_metadata : ImageMetadata.t;
  detected_labels : list DetectedLabel.t;
  overall_confidence : ConfidenceScore.t;
  status : CleanlinessStatus;
  audit_id : UUID;
  negative_labels : list DetectedLabel.t;
  reason : option string;
  analyzed_at : datetime;
  reviewed_by : option string;
  reviewed_at : option datetime;
  manual_override : option bool;
  vision_provider : string;
  model_version : option string
}.

(** Assignments to one attribute of [self]. *)
Definition set_negative_labels (v : list DetectedLabel.t) (self : t) : t :=
  mk (image_metadata self) (detected_labels self) (overall_confidence self)
     (status self) (audit_id self) v (reason self) (analyzed_at self)
     (reviewed_by self) (reviewed_at self) (manual_override self)
     (vision_provider self) (model_version self).

Definition set_reason (v : option string) (self : t) : t :=
  mk (image_metadata self) (detected_labels self) (overall_confidence self)
     (status self) (audit_id self) (negative_labels self) v (analyzed_at self)
     (reviewed_by self) (reviewed_at self) (manual_override self)
     (vision_provider self) (model_version self).

Definition set_status (v : CleanlinessStatus) (self : t) : t :=
  mk (image_metadata self) (detected_labels self) (overall_confidence self)
     v (audit_id self) (negative_labels self) (reason self) (analyzed_at self)
     (reviewed_by self) (reviewed_at self) (manual_override self)
     (vision_provider self) (model_version self).

Definition set_reviewed_by (v : option string) (self : t) : t :=
  mk (image_metadata self) (detected_labels self) (overall_confidence self)
     (status self) (audit_id self) (negative_labels self) (reason self)
     (analyzed_at self) v (reviewed_at self) (manual_override self)
     (vision_provider self) (model_version self).

Definition set_reviewed_at (v : option datetime) (self : t) : t :=
  mk (image_metadata self) (detected_labels self) (overall_confidence self)
     (status self) (audit_id self) (negative_labels self) (reason self)
     (analyzed_at self) (reviewed_by self) v (manual_override self)
     (vision_provider self) (model_version self).

Definition set_manual_override (v : option bool) (self : t) : t :=
  mk (image_metadata self) (detected_labels self) (overall_confidence self)
     (status self) (audit_id self) (negative_labels self) (reason self)
     (analyzed_at self) (reviewed_by self) (reviewed_at self) v
     (vision_provider self) (model_version self).

Definition _generate_reason (self : t) : string :=
  match status self with
  | CLEAN => "No cleanliness issues detected"
  | INSUFFICIENT_DATA =>
      ("Confidence too low ("
         ++ ConfidenceScore.as_percentage (overall_confidence self) ++ ")")%string
  | REQUIRES_MANUAL_REVIEW => "Unclear results - manual review required"
  | NOT_CLEAN =>
      match negative_labels self with
      | _ :: _ =>
          let label_names :=
            map DetectedLabel.name (firstn 3 (negative_labels self)) in
          ("Issues detected: " ++ String.concat ", " label_names)%string
      | [] => "Status determination unclear"
      end
  end.

Definition __post_init__ (self : t) : t :=
  let self :=
    set_negative_labels
      (filter DetectedLabel.is_negative (detected_labels self)) self in
  if negb (str_truthy (reason self))
  then set_reason (Some (_generate_reason self)) self
  else self.

(** The keyword arguments of the constructor that have a default;
    [None] stands for an argument that is left out. *)
Record kwargs : Type := mk_kwargs {
  kw_audit_id : option UUID;
  kw_negative_labels : option (list DetectedLabel.t);
  kw_reason : option string;
  kw_analyzed_at : option datetime;
  kw_reviewed_by : option string;
  kw_reviewed_at : option datetime;
  kw_manual_override : option bool;
  kw_vision_provider : option string;
  kw_model_version : option string
}.

Definition no_kwargs : kwargs :=
  mk_kwargs None None None None None None None None None.

(** [AuditResult(...)]: the generated [__init__], which fills the
    defaults ([fresh] is what [uuid4()] returns and [now] what
    [datetime.utcnow()] returns), followed by [__post_init__]. *)
Definition new (fresh : UUID) (now : datetime)
    (image_metadata : ImageMetadata.t)
    (detected_labels : list DetectedLabel.t)
    (overall_confidence : ConfidenceScore.t)
    (status : CleanlinessStatus) (kw : kwargs) : t :=
  __post_init__
    (mk image_metadata detected_labels overall_confidence status
        (default (kw_audit_id kw) fresh)
        (default (kw_negative_labels kw) [])
        (kw_reason kw)
        (default (kw_analyzed_at kw) now)
        (kw_reviewed_by kw)
        (kw_reviewed_at kw)
        (kw_manual_override kw)
        (default (kw_vision_provider kw) "rekognition")
        (kw_model_version kw)).

(** [now] is what [datetime.utcnow()] returns during the call. *)
Definition apply_manual_override (now : datetime)
    (reviewer_id : string) (is_clean : bool) (notes : string) (self : t) : t :=
  let self := set_manual_override (Some is_clean) self in
  let self := set_status (if is_clean then CLEAN else NOT_CLEAN) self in
  let self := set_reviewed_by (Some reviewer_id) self in
  let self := set_reviewed_at (Some now) self in
  set_reason (Some ("Manual override: " ++ notes)%string) self.

Definition is_finalized (self : t) : bool :=
  match reviewed_by self with
  | Some _ => true
  | None => false
  end.

Definition passes_compliance (self : t) : bool := is_compliant (status self).

Definition requires_review (self : t) : bool :=
  requires_human_intervention (status self).

End AuditResult.

(** ** services/cleanliness_evaluator.py *)

Module CleanlinessRules.

(** [negative_labels] is a [set]; the evaluator only asks whether some
    member occurs in a label name, which does not depend on the order
    or on repetitions, so the members are kept in a list. *)
Record t : Type := mk {
  negative_labels : list string;
  confidence_threshold : Q;
  max_negative_labels : Z;
  require_review_on_low_confidence : bool
}.

Definition default_negative_labels : list string :=
  [ "Dirt"; "Mud"; "Debris"; "Trash"; "Garbage"; "Litter";
    "Waste"; "Rubbish"; "Clutter"; "Mess";
    "Stain"; "Graffiti"; "Rust"; "Corrosion"; "Mold"; "Mildew";
    "Decay"; "Deterioration";
    "Insect"; "Bug"; "Rodent"; "Pest"; "Spider Web";
    "Disorder"; "Disorganized"; "Untidy"; "Unkempt";
    "Spill"; "Leak"; "Broken Glass"; "Sharp Object" ].

(** [CleanlinessRules(...)] with the defaults of the dataclass and the
    [__post_init__] that fills the negative labels. *)
Definition new (negative_labels : option (list string))
    (confidence_threshold : option Q) (max_negative_labels : option Z)
    (require_review_on_low_confidence : option bool) : t :=
  mk (default negative_labels default_negative_labels)
     (default confidence_threshold 80%Q)
     (default max_negative_labels 0)
     (default require_review_on_low_confidence true).

End CleanlinessRules.

Module CleanlinessEvaluator.
Section Evaluator.

(** [self.rules] *)
Variable rules : CleanlinessRules.t.

Definition _is_negative_label (label_name : string) : bool :=
  let label_lower := lower label_name in
  existsb (fun neg_label => contains (lower neg_label) label_lower)
          (CleanlinessRules.negative_labels rules).

Definition _convert_labels (vision_labels : list VisionLabel.t)
  : list DetectedLabel.t :=
  map (fun label =>
         DetectedLabel.mk (VisionLabel.name label)
                          (VisionLabel.confidence label)
                          (_is_negative_label (VisionLabel.name label)))
      vision_labels.

Definition _identify_negative_labels (labels : list DetectedLabel.t)
  : list DetectedLabel.t :=
  filter DetectedLabel.is_negative labels.

Definition label_value (l : DetectedLabel.t) : Q :=
  ConfidenceScore.value (DetectedLabel.confidence l).

Definition _calculate_overall_confidence (labels : list DetectedLabel.t)
  : result ConfidenceScore.t :=
  match labels with
  | [] => ConfidenceScore.new 0
  | _ :: _ =>
      let top_labels := firstn 5 (sorted_desc label_value labels) in
      let avg_confidence :=
        (sum (map label_value top_labels)
           / inject_Z (Z.of_nat (List.length top_labels)))%Q in
      ConfidenceScore.new avg_confidence
  end.

Definition _determine_status (negative_labels : list DetectedLabel.t)
    (overall_confidence : ConfidenceScore.t) (manual_override : option bool)
  : CleanlinessStatus :=
  match manual_override with
  | Some b => if b then CLEAN else NOT_CLEAN
  | None =>
      if negb (ConfidenceScore.is_above_threshold overall_confidence
                 (CleanlinessRules.confidence_threshold rules))
      then
        if CleanlinessRules.require_review_on_low_confidence rules
        then REQUIRES_MANUAL_REVIEW
        else INSUFFICIENT_DATA
      else if Z.of_nat (List.length negative_labels)
                >? CleanlinessRules.max_negative_labels rules
      then NOT_CLEAN
      else
        match negative_labels with
        | _ :: _ => NOT_CLEAN
        | [] => CLEAN
        end
  end.

(** [fresh] and [now] are what [uuid4()] and [datetime.utcnow()]
    return when the audit result is built. *)
Definition evaluate (fresh : UUID) (now : datetime)
    (vision_result : VisionAnalysisResult.t)
    (image_metadata : ImageMetadata.t) (manual_override : option bool)
  : result AuditResult.t :=
  let detected_labels :=
    _convert_labels (VisionAnalysisResult.labels vision_result) in
  overall_confidence <- _calculate_overall_confidence detected_labels ;;
  let negative_labels := _identify_negative_labels detected_labels in
  let status :=
    _determine_status negative_labels overall_confidence manual_override in
  Ok (AuditResult.new fresh now image_metadata detected_labels
        overall_confidence status
        (AuditResult.mk_kwargs None (Some negative_labels) None None None None
           manual_override
           (Some (VisionAnalysisResult.provider_name vision_result))
           (Some (VisionAnalysisResult.model_version vision_result)))).

End Evaluator.
End CleanlinessEvaluator.

(** ** Audit results as objects

    An [AuditResult] is a mutable object, and the repository below keeps
    the objects it is given, not copies of them.  An object is named by
    a reference; the heap gives the present state of every object. *)

Definition ref : Type := nat.

Definition heap : Type := ref -> AuditResult.t.

Definition heap_set (h : heap) (r : ref) (a : AuditResult.t) : heap :=
  fun r' => if Nat.eqb r' r then a else h r'.

(** [audit.apply_manual_override(reviewer_id, is_clean, notes)] on the
    object [audit]. *)
Definition apply_manual_override_at (now : datetime) (reviewer_id : string)
    (is_clean : bool) (notes : string) (audit : ref) (h : heap) : heap :=
  heap_set h audit
    (AuditResult.apply_manual_override now reviewer_id is_clean notes (h audit)).

(** ** infrastructure/persistence/in_memory_repository.py

    The methods are coroutines without a suspension point: each runs
    from start to end at once, so each is a function of the state it
    finds. *)

Module InMemoryAuditRepository.

(** [self._audits] *)
Definition t : Type := list (UUID * ref).

Definition __init__ : t := [].

Definition save (h : heap) (audit : ref) (self : t) : t :=
  dict_set Z.eqb (AuditResult.audit_id (h audit)) audit self.

Definition find_by_id (audit_id : UUID) (self : t) : option ref :=
  dict_get Z.eqb audit_id self.

Definition find_by_dealer_and_checkpoint (h : heap)
    (dealer_id checkpoint_id : string) (limit : Z) (self : t) : list ref :=
  let results :=
    filter
      (fun audit =>
         String.eqb
           (ImageMetadata.dealer_id (AuditResult.image_metadata (h audit)))
           dealer_id
         && String.eqb
              (ImageMetadata.checkpoint_id (AuditResult.image_metadata (h audit)))
              checkpoint_id)
      (dict_values self) in
  let results :=
    sorted_desc (fun x => inject_Z (AuditResult.analyzed_at (h x))) results in
  slice_to limit results.

Definition find_pending_reviews (h : heap) (limit : Z) (self : t) : list ref :=
  let results :=
    filter
      (fun audit =>
         status_eqb (AuditResult.status (h audit)) REQUIRES_MANUAL_REVIEW
         && negb (AuditResult.is_finalized (h audit)))
      (dict_values self) in
  let results :=
    sorted_asc (fun x => inject_Z (AuditResult.analyzed_at (h x))) results in
  slice_to limit results.

(** [counts[k] += 1]; a missing key raises [KeyError], here [None]. *)
Definition increment (k : string) (counts : list (string * Z))
  : option (list (string * Z)) :=
  match dict_get String.eqb k counts with
  | Some n => Some (dict_set String.eqb k (n + 1) counts)
  | None => None
  end.

Definition count_by_status (h : heap) (dealer_id : string) (self : t)
  : option (list (string * Z)) :=
  let counts := map (fun status => (status_value status, 0)) all_statuses in
  fold_left
    (fun counts audit =>
       match counts with
       | Some counts =>
           increment (status_value (AuditResult.status (h audit))) counts
       | None => None
       end)
    (dict_values self) (Some counts).

End InMemoryAuditRepository.

(** ** api/routes/vision.py

    The checks [analyze_with_gemini] makes on an upload before anything
    else.  What follows them in the function, from the log call on (the
    use case, the response made of the audit, the translation of
    exceptions), needs the collaborators of the route and is the
    parameter [proceed], given the upload and the size computed. *)

Module VisionRoute.

(** A route returns a response or raises an [HTTPException]. *)
Inductive outcome (Response : Type) : Type :=
| Returned (response : Response)
| HTTPException (status_code : Z) (detail : string).

Arguments Returned {Response} response.
Arguments HTTPException {Response} status_code detail.

(** [x in xs] on optional strings. *)
Definition content_type_in (x : option string) (xs : list string) : bool :=
  match x with
  | Some x => existsb (String.eqb x) xs
  | None => false
  end.

Section AnalyzeWithGemini.
Context {Response : Type}.
Variable proceed :
  string -> string -> option string -> list Byte.byte -> Q -> Q -> outcome Response.

Definition analyze_with_gemini (dealer_id checkpoint_id : string)
    (content_type : option string) (image_bytes : list Byte.byte)
    (min_confidence : Q) : outcome Response :=
  if negb (content_type_in content_type ["image/jpeg"; "image/png"])
  then HTTPException 400 "Invalid image format. Must be JPEG or PNG."
  else
    let size_mb :=
      (inject_Z (Z.of_nat (List.length image_bytes)) / (1024 * 1024))%Q in
    if negb (Qle_bool size_mb 15)
    then HTTPException 413
           ("Image too large (" ++ format_1f size_mb ++ "MB). Maximum 15MB.")
    else proceed dealer_id checkpoint_id content_type image_bytes
           min_confidence size_mb.

End AnalyzeWithGemini.
End VisionRoute.

(** * Vocabulary of the specification

    These definitions follow the words of the specification, not the
    code; the properties below relate the code to them. *)

(** [a] may stand before [b] in a list sorted by decreasing key. *)
Definition desc {A : Type} (key : A -> Q) (a b : A) : Prop :=
  (key b <= key a)%Q.

(** The same for a list of values. *)
Definition Qdesc : Q -> Q -> Prop := desc (fun q => q).

(** The arithmetic mean of a list of values. *)
Definition mean (xs : list Q) : Q :=
  (sum xs / inject_Z (Z.of_nat (List.length xs)))%Q.

(** A label name contains, case-insensitively, one of the negative terms. *)
Definition name_matches (terms : list string) (name : string) : Prop :=
  exists term, In term terms /\
    exists pre post, lower name = (pre ++ lower term ++ post)%string.

(** The confidence values of the labels of a vision result, in order. *)
Definition vision_values (vision_result : VisionAnalysisResult.t) : list Q :=
  map (fun l => ConfidenceScore.value (VisionLabel.confidence l))
      (VisionAnalysisResult.labels vision_result).

(** The two invariants of an audit result: the negative labels are the
    detected labels flagged negative, and there is a non-empty reason. *)
Definition audit_invariant (r : AuditResult.t) : Prop :=
  AuditResult.negative_labels r
  = filter DetectedLabel.is_negative (AuditResult.detected_labels r)
  /\ exists s, AuditResult.reason r = Some s /\ s <> ""%string.

(** One call of [apply_manual_override], with the time it reads. *)
Record override_call : Type := {
  oc_now : datetime;
  oc_reviewer_id : string;
  oc_is_clean : bool;
  oc_notes : string
}.

Definition apply_overrides (calls : list override_call) (r : AuditResult.t)
  : AuditResult.t :=
  fold_left
    (fun r c =>
       AuditResult.apply_manual_override
         (oc_now c) (oc_reviewer_id c) (oc_is_clean c) (oc_notes c) r)
    calls r.

(** [a] may stand before [b] in a list sorted by increasing key. *)
Definition asc {A : Type} (key : A -> Q) (a b : A) : Prop :=
  (key a <= key b)%Q.

(** The audit [a] was analysed no earlier than [b]; no later than [b]. *)
Definition newest_first (h : heap) (a b : ref) : Prop :=
  AuditResult.analyzed_at (h b) <= AuditResult.analyzed_at (h a).

Definition oldest_first (h : heap) (a b : ref) : Prop :=
  AuditResult.analyzed_at (h a) <= AuditResult.analyzed_at (h b).

(** The audit is of the given checkpoint of the given dealer. *)
Definition at_checkpoint (h : heap) (dealer_id checkpoint_id : string)
    (audit : ref) : Prop :=
  ImageMetadata.dealer_id (AuditResult.image_metadata (h audit)) = dealer_id /\
  ImageMetadata.checkpoint_id (AuditResult.image_metadata (h audit))
  = checkpoint_id.

(** The audit waits for a manual review. *)
Definition awaits_review (h : heap) (audit : ref) : Prop :=
  AuditResult.status (h audit) = REQUIRES_MANUAL_REVIEW /\
  AuditResult.reviewed_by (h audit) = None.

(** How many of the audits have the given status. *)
Definition count_status (h : heap) (status : CleanlinessStatus)
    (audits : list ref) : Z :=
  Z.of_nat
    (List.length
       (filter (fun a => status_eqb (AuditResult.status (h a)) status) audits)).

(** The audit was analysed at the instant [t]. *)
Definition analysed_at (h : heap) (t : datetime) (audit : ref) : bool :=
  (AuditResult.analyzed_at (h audit) =? t)%Z.

(** The audits of a checkpoint, as a test. *)
Definition at_checkpointb (h : heap) (dealer_id checkpoint_id : string)
    (audit : ref) : bool :=
  String.eqb (ImageMetadata.dealer_id (AuditResult.image_metadata (h audit)))
             dealer_id
  && String.eqb
       (ImageMetadata.checkpoint_id (AuditResult.image_metadata (h audit)))
       checkpoint_id.

(** The length of [xs[:stop]] for a list of [n] elements. *)
Definition slice_length (stop : Z) (n : nat) : nat :=
  if stop <? 0 then Z.to_nat (Z.of_nat n + stop) else Nat.min (Z.to_nat stop) n.

(** * Concrete inputs

    The scenarios the specification lists, for the worked examples. *)

Definition vision_label (name : string) (v : Q)
    (ok : ConfidenceScore.in_range v = true) : VisionLabel.t :=
  VisionLabel.mk name (ConfidenceScore.mk v ok) "general".

Definition vision_of (labels : list VisionLabel.t) : VisionAnalysisResult.t :=
  VisionAnalysisResult.mk labels None None "rekognition" "1.0" 120.

Definition sample_metadata : ImageMetadata.t :=
  ImageMetadata.mk 11 "dealer-7" "entrance" "audits" "dealer-7/entrance.jpg"
    "user-3" 1700000000 1700000060 204800 "image/jpeg" (Some 1920) (Some 1080).

(** A value of [uuid4()] and a reading of [datetime.utcnow()]. *)
Definition sample_uuid : UUID := 4711.
Definition sample_time : datetime := 1700000075.

(** [CleanlinessRules()] *)
Definition default_rules : CleanlinessRules.t :=
  CleanlinessRules.new None None None None.

(** [CleanlinessRules(require_review_on_low_confidence=False)] *)
Definition no_review_rules : CleanlinessRules.t :=
  CleanlinessRules.new None None None (Some false).

(** [CleanlinessRules(max_negative_labels=2)] *)
Definition tolerant_rules : CleanlinessRules.t :=
  CleanlinessRules.new None None (Some 2) None.

Definition trash_vision : VisionAnalysisResult.t :=
  vision_of [vision_label "Trash" 92 eq_refl].

Definition car_low_vision : VisionAnalysisResult.t :=
  vision_of [vision_label "Car" 40 eq_refl].

Definition car_at_threshold_vision : VisionAnalysisResult.t :=
  vision_of [vision_label "Car" 80 eq_refl].

Definition clean_vision : VisionAnalysisResult.t :=
  vision_of [vision_label "Car" 95 eq_refl; vision_label "Tire" 88 eq_refl].


(** A name two negative terms occur in, and names in mixed case. *)
Definition spill_vision : VisionAnalysisResult.t :=
  vision_of [vision_label "Car" 95 eq_refl;
             vision_label "TRASH Spill" 91 eq_refl;
             vision_label "rusty pipe" 89 eq_refl;
             vision_label "Tire" 88 eq_refl].

(** [CleanlinessRules(max_negative_labels=-1)] *)
Definition negative_tolerance_rules : CleanlinessRules.t :=
  CleanlinessRules.new None None (Some (-1)) None.

(** The labels of the clean scenario, the other way round. *)
Definition clean_vision_reversed : VisionAnalysisResult.t :=
  vision_of [vision_label "Tire" 88 eq_refl; vision_label "Car" 95 eq_refl].

(** The audit that [evaluate] builds for the low-confidence scenario,
    held by the object 0 of a heap whose other objects are the clean
    audit of the "Car" and "Tire" scenario. *)
Definition audit_of (r : result AuditResult.t) : AuditResult.t :=
  match r with
  | Ok a => a
  | Raise _ =>
      AuditResult.new 0 0 sample_metadata [] (ConfidenceScore.mk 0 eq_refl)
        INSUFFICIENT_DATA AuditResult.no_kwargs
  end.

Definition low_audit : AuditResult.t :=
  audit_of (CleanlinessEvaluator.evaluate default_rules sample_uuid sample_time
              car_low_vision sample_metadata None).

Definition clean_audit : AuditResult.t :=
  audit_of (CleanlinessEvaluator.evaluate default_rules 4712 sample_time
              clean_vision sample_metadata None).

Definition sample_heap : heap :=
  heap_set (fun _ => clean_audit) 0%nat low_audit.

(** Two storage locations whose URI is the same. *)
Definition slash_bucket_metadata : ImageMetadata.t :=
  ImageMetadata.mk 13 "dealer-7" "entrance" "a/b" "c"
    "user-3" 1700000000 1700000060 204800 "image/jpeg" None None.

Definition slash_key_metadata : ImageMetadata.t :=
  ImageMetadata.mk 13 "dealer-7" "entrance" "a" "b/c"
    "user-3" 1700000000 1700000060 204800 "image/jpeg" None None.

(** An image whose recorded width is zero. *)
Definition zero_width_metadata : ImageMetadata.t :=
  ImageMetadata.mk 12 "dealer-7" "entrance" "audits" "dealer-7/empty.jpg"
    "user-3" 1700000000 1700000060 204800 "image/jpeg" (Some 0) (Some 100).

(** * Properties *)

(** ** Strings: what [contains] decides *)

Lemma prefix_iff (n h : string) :
  prefix n h = true <-> exists post, h = (n ++ post)%string.
Proof.
  revert h; induction n as [|a n IH]; intros h; simpl.
  - destruct h; simpl; split; intros _; eauto.
  - destruct h as [|b h]; simpl.
    + split; [discriminate | intros [post H]; discriminate].
    + destruct (ascii_dec a b) as [->|Hab].
      * rewrite IH. split; intros [post H]; exists post.
        -- now rewrite H.
        -- now injection H.
      * split; [discriminate | intros [post H]].
        injection H as H1 _. now symmetry in H1.
Qed.

Lemma contains_iff (n h : string) :
  contains n h = true <->
  exists pre post, h = (pre ++ n ++ post)%string.
Proof.
  induction h as [|c h IH]; cbn [contains].
  - rewrite orb_false_r, prefix_iff. split.
    + intros [post H]. now exists ""%string, post.
    + intros (pre & post & H). destruct pre; [now exists post | discriminate].
  - rewrite orb_true_iff, prefix_iff, IH. split.
    + intros [[post H] | (pre & post & H)].
      * now exists ""%string, post.
      * exists (String c pre), post. simpl. now rewrite H.
    + intros (pre & post & H). destruct pre as [|c' pre]; simpl in H.
      * left. now exists post.
      * right. injection H as _ H. now exists pre, post.
Qed.

(** ** Sums of rationals *)

Local Open Scope Q_scope.

Lemma fold_left_Qplus (xs : list Q) (a : Q) :
  fold_left Qplus xs a == a + fold_left Qplus xs 0.
Proof.
  revert a; induction xs as [|x xs IH]; intros a; simpl.
  - ring.
  - rewrite (IH (a + x)), (IH (0 + x)). ring.
Qed.

Lemma sum_cons (x : Q) (xs : list Q) : sum (x :: xs) == x + sum xs.
Proof.
  unfold sum; simpl. rewrite fold_left_Qplus. ring.
Qed.

Lemma sum_app (xs ys : list Q) : sum (xs ++ ys) == sum xs + sum ys.
Proof.
  induction xs as [|x xs IH]; simpl.
  - unfold sum at 2; simpl. ring.
  - rewrite !sum_cons, IH. ring.
Qed.

Lemma sum_perm (xs ys : list Q) : Permutation xs ys -> sum xs == sum ys.
Proof.
  induction 1 as [|x xs ys _ IH|x y xs|xs ys zs _ IH1 _ IH2].
  - reflexivity.
  - now rewrite !sum_cons, IH.
  - rewrite !sum_cons. ring.
  - now rewrite IH1.
Qed.

Lemma sum_Forall2 (xs ys : list Q) : Forall2 Qeq xs ys -> sum xs == sum ys.
Proof.
  induction 1 as [|x y xs ys Hxy _ IH].
  - reflexivity.
  - now rewrite !sum_cons, Hxy, IH.
Qed.

Lemma sum_bounds (xs : list Q) :
  Forall (fun x => 0 <= x /\ x <= 100) xs ->
  0 <= sum xs /\ sum xs <= 100 * inject_Z (Z.of_nat (List.length xs)).
Proof.
  induction 1 as [|x xs [Hlo Hhi] _ [IHlo IHhi]].
  - unfold sum; simpl. split; ring_simplify; apply Qle_refl.
  - rewrite sum_cons. cbn [List.length]. rewrite Nat2Z.inj_succ.
    unfold Z.succ. rewrite inject_Z_plus. change (inject_Z 1) with 1.
    split; lra.
Qed.

(** ** The stable descending sort *)

Section SortedFacts.
Context {A : Type} (key : A -> Q).

Lemma insert_desc_perm (x : A) (l : list A) :
  Permutation (x :: l) (insert_desc key x l).
Proof.
  induction l as [|y l IH]; simpl.
  - reflexivity.
  - destruct (Qle_bool (key y) (key x)).
    + reflexivity.
    + rewrite perm_swap. now apply perm_skip.
Qed.

Lemma sorted_desc_perm (l : list A) : Permutation l (sorted_desc key l).
Proof.
  induction l as [|x l IH]; simpl.
  - reflexivity.
  - rewrite <- insert_desc_perm. now apply perm_skip.
Qed.

Lemma sorted_desc_length (l : list A) :
  List.length (sorted_desc key l) = List.length l.
Proof. symmetry. apply Permutation_length, sorted_desc_perm. Qed.

Lemma insert_desc_sorted (x : A) (l : list A) :
  StronglySorted (desc key) l -> StronglySorted (desc key) (insert_desc key x l).
Proof.
  induction 1 as [|y l Hl IH Hy]; simpl.
  - repeat constructor.
  - destruct (Qle_bool (key y) (key x)) eqn:E.
    + apply Qle_bool_iff in E. constructor.
      * now constructor.
      * constructor; [exact E|].
        eapply Forall_impl; [|exact Hy].
        intros z Hz. unfold desc in *. lra.
    + assert (key x < key y) as Hlt.
      { apply Qnot_le_lt. intros H. apply Qle_bool_iff in H. congruence. }
      constructor; [exact IH|].
      eapply Permutation_Forall; [apply insert_desc_perm|].
      constructor; [|exact Hy]. unfold desc. lra.
Qed.

Lemma sorted_desc_sorted (l : list A) :
  StronglySorted (desc key) (sorted_desc key l).
Proof.
  induction l as [|x l IH]; simpl.
  - constructor.
  - now apply insert_desc_sorted.
Qed.

(** The sort is stable: the elements of any one key keep their order. *)
Lemma insert_desc_filter (p : A -> bool) (x : A) (l : list A) :
  (forall y, In y l -> p y = true -> p x = true -> Qle_bool (key y) (key x) = true) ->
  filter p (insert_desc key x l) = filter p (x :: l).
Proof.
  induction l as [|y l IH]; intros H; simpl.
  - reflexivity.
  - destruct (Qle_bool (key y) (key x)) eqn:E; simpl.
    + reflexivity.
    + rewrite IH by (intros z Hz; apply H; now right). simpl.
      destruct (p y) eqn:Py; [|reflexivity].
      destruct (p x) eqn:Px; [|reflexivity].
      specialize (H y (or_introl eq_refl) Py eq_refl). congruence.
Qed.

Lemma sorted_desc_stable (k : Q) (l : list A) :
  filter (fun a => Qeq_bool (key a) k) (sorted_desc key l)
  = filter (fun a => Qeq_bool (key a) k) l.
Proof.
  induction l as [|x l IH]; simpl.
  - reflexivity.
  - rewrite insert_desc_filter.
    + simpl. now rewrite IH.
    + intros y _ Hy Hx. apply Qeq_bool_iff in Hy, Hx.
      apply Qle_bool_iff. rewrite Hy, Hx. apply Qle_refl.
Qed.
End SortedFacts.

(** ** Confidence scores *)

Lemma in_range_iff (v : Q) :
  ConfidenceScore.in_range v = true <-> 0 <= v /\ v <= 100.
Proof.
  unfold ConfidenceScore.in_range.
  now rewrite andb_true_iff, !Qle_bool_iff.
Qed.

Lemma value_in_range (s : ConfidenceScore.t) :
  0 <= ConfidenceScore.value s /\ ConfidenceScore.value s <= 100.
Proof. apply in_range_iff, ConfidenceScore.value_ok. Qed.

Lemma new_ok (v : Q) :
  0 <= v <= 100 ->
  exists s, ConfidenceScore.new v = Ok s /\ ConfidenceScore.value s = v.
Proof.
  intros H. unfold ConfidenceScore.new.
  destruct (bool_dec (ConfidenceScore.in_range v) true) as [ok|no].
  - now eexists.
  - now apply in_range_iff in H.
Qed.


Lemma mean_in_range (xs : list Q) :
  xs <> [] ->
  Forall (fun x => 0 <= x /\ x <= 100) xs ->
  0 <= mean xs <= 100.
Proof.
  intros Hne H. destruct (sum_bounds xs H) as [Hlo Hhi].
  assert (0 < inject_Z (Z.of_nat (List.length xs))) as Hn.
  { change 0 with (inject_Z 0). rewrite <- Zlt_Qlt.
    destruct xs; [congruence | cbn [List.length]; lia]. }
  unfold mean. split.
  - apply Qle_shift_div_l; [exact Hn | lra].
  - apply Qle_shift_div_r; [exact Hn | lra].
Qed.

(** ** Sorted lists of values and their leading elements *)

Lemma insert_desc_map {A : Type} (key : A -> Q) (x : A) (l : list A) :
  map key (insert_desc key x l) = insert_desc (fun q => q) (key x) (map key l).
Proof.
  induction l as [|y l IH]; simpl.
  - reflexivity.
  - destruct (Qle_bool (key y) (key x)); simpl; [reflexivity | now rewrite IH].
Qed.

Lemma sorted_desc_map {A : Type} (key : A -> Q) (l : list A) :
  map key (sorted_desc key l) = sorted_desc (fun q => q) (map key l).
Proof.
  induction l as [|x l IH]; simpl.
  - reflexivity.
  - now rewrite insert_desc_map, IH.
Qed.

Lemma StronglySorted_app {A : Type} (R : A -> A -> Prop) (l1 l2 : list A) :
  StronglySorted R l1 -> StronglySorted R l2 ->
  (forall a b, In a l1 -> In b l2 -> R a b) ->
  StronglySorted R (l1 ++ l2).
Proof.
  induction 1 as [|x l1 _ IH Hx]; intros H2 Hc; simpl.
  - exact H2.
  - constructor.
    + apply IH; [exact H2 | intros a b Ha; apply Hc; now right].
    + apply Forall_app. split; [exact Hx|].
      apply Forall_forall. intros b Hb. apply Hc; [now left | exact Hb].
Qed.

Lemma StronglySorted_app_cross {A : Type} (R : A -> A -> Prop) (l1 l2 : list A) :
  StronglySorted R (l1 ++ l2) ->
  forall a b, In a l1 -> In b l2 -> R a b.
Proof.
  induction l1 as [|x l1 IH]; simpl; intros H a b Ha Hb.
  - contradiction.
  - apply StronglySorted_inv in H as [Hs Hx]. destruct Ha as [->|Ha].
    + rewrite Forall_forall in Hx. apply Hx, in_or_app. now right.
    + now apply IH.
Qed.

Lemma Qred_idem (q : Q) : Qred (Qred q) = Qred q.
Proof. apply Qred_complete, Qred_correct. Qed.

Lemma StronglySorted_map_Qred (l : list Q) :
  StronglySorted Qdesc l -> StronglySorted Qdesc (map Qred l).
Proof.
  induction 1 as [|x l _ IH Hx]; simpl; constructor.
  - exact IH.
  - apply Forall_map. eapply Forall_impl; [|exact Hx].
    intros y Hy. unfold Qdesc, desc in *. now rewrite !Qred_correct.
Qed.

(** A list of reduced fractions has one arrangement in decreasing order. *)
Lemma sorted_reduced_unique (l1 l2 : list Q) :
  Forall (fun q => Qred q = q) l1 -> Forall (fun q => Qred q = q) l2 ->
  StronglySorted Qdesc l1 -> StronglySorted Qdesc l2 ->
  Permutation l1 l2 -> l1 = l2.
Proof.
  revert l2; induction l1 as [|a l1 IH]; intros l2 R1 R2 S1 S2 P.
  - now apply Permutation_nil in P.
  - destruct l2 as [|b l2].
    + symmetry in P. now apply Permutation_nil in P.
    + apply StronglySorted_inv in S1 as [S1 Ha], S2 as [S2 Hb].
      apply Forall_cons_iff in R1 as [Ra R1], R2 as [Rb R2].
      rewrite Forall_forall in Ha, Hb.
      assert (a = b) as ->.
      { assert (In a (b :: l2)) as Ia
          by (eapply Permutation_in; [exact P | now left]).
        assert (In b (a :: l1)) as Ib
          by (eapply Permutation_in; [symmetry; exact P | now left]).
        destruct Ia as [->|Ia]; [reflexivity|].
        destruct Ib as [->|Ib]; [reflexivity|].
        rewrite <- Ra, <- Rb. apply Qred_complete, Qle_antisym.
        - exact (Hb a Ia).
        - exact (Ha b Ib). }
      f_equal. apply IH; try assumption.
      now apply Permutation_cons_inv in P.
Qed.

Lemma sum_map_Qred (l : list Q) : sum (map Qred l) == sum l.
Proof.
  apply sum_Forall2. induction l; constructor; [apply Qred_correct | assumption].
Qed.

(** Whichever way the [length top] greatest values of [vs] are picked,
    their sum is that of the leading elements of the sorted list. *)
Lemma top_sum_unique (vs top rest : list Q) :
  Permutation vs (top ++ rest) ->
  (forall a b, In a top -> In b rest -> b <= a) ->
  sum (firstn (List.length top) (sorted_desc (fun q => q) vs)) == sum top.
Proof.
  intros P Hc.
  set (srt := sorted_desc (fun q : Q => q)).
  assert (map Qred (srt vs) = map Qred (srt top ++ srt rest)) as E.
  { apply sorted_reduced_unique.
    - apply Forall_map, Forall_forall. intros q _. apply Qred_idem.
    - apply Forall_map, Forall_forall. intros q _. apply Qred_idem.
    - apply StronglySorted_map_Qred, sorted_desc_sorted.
    - apply StronglySorted_map_Qred, StronglySorted_app.
      + apply sorted_desc_sorted.
      + apply sorted_desc_sorted.
      + intros a b Ha Hb. apply Hc.
        * eapply Permutation_in; [symmetry; apply sorted_desc_perm | exact Ha].
        * eapply Permutation_in; [symmetry; apply sorted_desc_perm | exact Hb].
    - apply Permutation_map.
      transitivity vs; [symmetry; apply sorted_desc_perm|].
      transitivity (top ++ rest); [exact P|].
      apply Permutation_app; apply sorted_desc_perm. }
  assert (List.length (map Qred (srt top)) = List.length top) as L.
  { rewrite length_map. apply sorted_desc_length. }
  rewrite <- sum_map_Qred, <- firstn_map, E, map_app, firstn_app, L.
  rewrite firstn_all2 by (rewrite L; apply Nat.le_refl).
  rewrite Nat.sub_diag, firstn_O, app_nil_r, sum_map_Qred.
  symmetry. apply sum_perm, sorted_desc_perm.
Qed.

(** ** The evaluator: [evaluate] returns, and what it returns *)

Lemma label_values_in_range (labels : list DetectedLabel.t) :
  Forall (fun x => 0 <= x /\ x <= 100)
         (map CleanlinessEvaluator.label_value labels).
Proof.
  apply Forall_map, Forall_forall. intros l _. apply value_in_range.
Qed.

Lemma calculate_overall_confidence_ok (labels : list DetectedLabel.t) :
  exists c,
    CleanlinessEvaluator._calculate_overall_confidence labels = Ok c /\
    ConfidenceScore.value c =
      match labels with
      | [] => 0
      | _ :: _ =>
          mean (firstn 5 (sorted_desc (fun q => q)
                            (map CleanlinessEvaluator.label_value labels)))
      end.
Proof.
  unfold CleanlinessEvaluator._calculate_overall_confidence.
  destruct labels as [|l labels].
  - apply new_ok. lra.
  - set (ls := l :: labels).
    rewrite <- sorted_desc_map, firstn_map.
    assert (firstn 5 (sorted_desc CleanlinessEvaluator.label_value ls) <> [])
      as Hne.
    { pose proof (sorted_desc_length CleanlinessEvaluator.label_value ls) as L.
      destruct (sorted_desc _ ls); [discriminate L | discriminate]. }
    set (top := firstn 5 (sorted_desc CleanlinessEvaluator.label_value ls)) in *.
    unfold mean. rewrite length_map.
    apply new_ok.
    rewrite <- (length_map CleanlinessEvaluator.label_value).
    apply mean_in_range.
    + destruct top; [congruence | discriminate].
    + apply label_values_in_range.
Qed.

Lemma convert_labels_values (rules : CleanlinessRules.t) (vr : VisionAnalysisResult.t) :
  map CleanlinessEvaluator.label_value
      (CleanlinessEvaluator._convert_labels rules (VisionAnalysisResult.labels vr))
  = vision_values vr.
Proof.
  unfold vision_values, CleanlinessEvaluator._convert_labels.
  rewrite map_map. reflexivity.
Qed.

(** [evaluate] raises nothing, and the fields of the audit result it
    builds are these. *)
Lemma evaluate_result (rules : CleanlinessRules.t) (fresh : UUID) (now : datetime)
    (vr : VisionAnalysisResult.t) (md : ImageMetadata.t) (mo : option bool) :
  exists r c,
    CleanlinessEvaluator.evaluate rules fresh now vr md mo = Ok r /\
    CleanlinessEvaluator._calculate_overall_confidence
      (CleanlinessEvaluator._convert_labels rules (VisionAnalysisResult.labels vr))
    = Ok c /\
    AuditResult.overall_confidence r = c /\
    AuditResult.detected_labels r
    = CleanlinessEvaluator._convert_labels rules (VisionAnalysisResult.labels vr) /\
    AuditResult.negative_labels r
    = CleanlinessEvaluator._identify_negative_labels (AuditResult.detected_labels r) /\
    AuditResult.status r
    = CleanlinessEvaluator._determine_status rules
        (AuditResult.negative_labels r) c mo /\
    AuditResult.manual_override r = mo /\
    AuditResult.reason r = Some (AuditResult._generate_reason r).
Proof.
  unfold CleanlinessEvaluator.evaluate.
  destruct (calculate_overall_confidence_ok
              (CleanlinessEvaluator._convert_labels rules
                 (VisionAnalysisResult.labels vr))) as (c & Hc & _).
  rewrite Hc. cbn [bind].
  eexists; exists c. split; [reflexivity|].
  split; [reflexivity|].
  repeat split; reflexivity.
Qed.

(** ** The status decision *)

(** C1. Manual override wins: for every rules configuration, vision
    result and image metadata, [evaluate] with [manual_override=True]
    returns an audit result whose status is [CLEAN], and with
    [manual_override=False] one whose status is [NOT_CLEAN]; the status
    decision with an override present does not depend on the negative
    labels, on the aggregate confidence or on the rules. *)
Theorem manual_override_wins (rules : CleanlinessRules.t)
    (fresh : UUID) (now : datetime)
    (vr : VisionAnalysisResult.t) (md : ImageMetadata.t) :
  (exists r, CleanlinessEvaluator.evaluate rules fresh now vr md (Some true) = Ok r
             /\ AuditResult.status r = CLEAN) /\
  (exists r, CleanlinessEvaluator.evaluate rules fresh now vr md (Some false) = Ok r
             /\ AuditResult.status r = NOT_CLEAN) /\
  (forall (rules' : CleanlinessRules.t) (negatives : list DetectedLabel.t)
          (confidence : ConfidenceScore.t) (b : bool),
      CleanlinessEvaluator._determine_status rules' negatives confidence (Some b)
      = if b then CLEAN else NOT_CLEAN).
Proof.
  split; [|split].
  - destruct (evaluate_result rules fresh now vr md (Some true))
      as (r & c & Hev & _ & _ & _ & _ & Hst & _).
    exists r. split; [exact Hev | exact Hst].
  - destruct (evaluate_result rules fresh now vr md (Some false))
      as (r & c & Hev & _ & _ & _ & _ & Hst & _).
    exists r. split; [exact Hev | exact Hst].
  - reflexivity.
Qed.

Lemma is_above_threshold_iff (s : ConfidenceScore.t) (threshold : Q) :
  ConfidenceScore.is_above_threshold s threshold = true
  <-> threshold <= ConfidenceScore.value s.
Proof. apply Qle_bool_iff. Qed.

Lemma determine_status_low (rules : CleanlinessRules.t)
    (negatives : list DetectedLabel.t) (c : ConfidenceScore.t) :
  ConfidenceScore.value c < CleanlinessRules.confidence_threshold rules ->
  CleanlinessEvaluator._determine_status rules negatives c None
  = if CleanlinessRules.require_review_on_low_confidence rules
    then REQUIRES_MANUAL_REVIEW else INSUFFICIENT_DATA.
Proof.
  intros H. unfold CleanlinessEvaluator._determine_status.
  destruct (ConfidenceScore.is_above_threshold c _) eqn:E; [|reflexivity].
  apply is_above_threshold_iff in E. lra.
Qed.

(** With the confidence at or above the threshold, rules 3 and 4 remain:
    too many negative labels, or any negative label, give [NOT_CLEAN]. *)
Lemma determine_status_high (rules : CleanlinessRules.t)
    (negatives : list DetectedLabel.t) (c : ConfidenceScore.t) :
  CleanlinessRules.confidence_threshold rules <= ConfidenceScore.value c ->
  CleanlinessEvaluator._determine_status rules negatives c None
  = if (Z.of_nat (List.length negatives)
          >? CleanlinessRules.max_negative_labels rules)%Z
    then NOT_CLEAN
    else match negatives with
         | _ :: _ => NOT_CLEAN
         | [] => CLEAN
         end.
Proof.
  intros H. unfold CleanlinessEvaluator._determine_status.
  apply is_above_threshold_iff in H. now rewrite H.
Qed.

(** C3. With no manual override, an aggregate confidence strictly below
    the threshold gives [REQUIRES_MANUAL_REVIEW] when
    [require_review_on_low_confidence] is set and [INSUFFICIENT_DATA]
    when it is not; a confidence equal to the threshold gives neither,
    the comparison of a score with a threshold being [value >= threshold]. *)
Theorem low_confidence_routing (rules : CleanlinessRules.t)
    (fresh : UUID) (now : datetime)
    (vr : VisionAnalysisResult.t) (md : ImageMetadata.t) :
  exists r,
    CleanlinessEvaluator.evaluate rules fresh now vr md None = Ok r /\
    (ConfidenceScore.value (AuditResult.overall_confidence r)
       < CleanlinessRules.confidence_threshold rules ->
     AuditResult.status r
     = if CleanlinessRules.require_review_on_low_confidence rules
       then REQUIRES_MANUAL_REVIEW else INSUFFICIENT_DATA) /\
    (ConfidenceScore.value (AuditResult.overall_confidence r)
       == CleanlinessRules.confidence_threshold rules ->
     AuditResult.status r <> REQUIRES_MANUAL_REVIEW /\
     AuditResult.status r <> INSUFFICIENT_DATA) /\
    (forall (s : ConfidenceScore.t) (threshold : Q),
        ConfidenceScore.is_above_threshold s threshold = true
        <-> threshold <= ConfidenceScore.value s).
Proof.
  destruct (evaluate_result rules fresh now vr md None)
    as (r & c & Hev & _ & Hc & _ & _ & Hst & _).
  exists r. split; [exact Hev|]. rewrite Hc, Hst. split; [|split].
  - apply determine_status_low.
  - intros E. rewrite determine_status_high by (rewrite E; apply Qle_refl).
    destruct (_ >? _)%Z; [split; discriminate|].
    destruct (AuditResult.negative_labels r); split; discriminate.
  - apply is_above_threshold_iff.
Qed.

(** The low-confidence scenario of the specification, and a score that
    sits on the threshold. *)
Lemma low_confidence_routing_witness :
  (exists r, CleanlinessEvaluator.evaluate default_rules sample_uuid sample_time car_low_vision
               sample_metadata None = Ok r
             /\ AuditResult.status r = REQUIRES_MANUAL_REVIEW) /\
  (exists r, CleanlinessEvaluator.evaluate no_review_rules sample_uuid sample_time car_low_vision
               sample_metadata None = Ok r
             /\ AuditResult.status r = INSUFFICIENT_DATA) /\
  (exists r, CleanlinessEvaluator.evaluate default_rules sample_uuid sample_time
               car_at_threshold_vision sample_metadata None = Ok r
             /\ AuditResult.status r <> REQUIRES_MANUAL_REVIEW
             /\ AuditResult.status r <> INSUFFICIENT_DATA).
Proof.
  split; [|split].
  - destruct (low_confidence_routing default_rules sample_uuid sample_time car_low_vision
                sample_metadata) as (r & Hev & Hlow & _).
    exists r. split; [exact Hev|].
    vm_compute in Hev. injection Hev as <-. apply Hlow. reflexivity.
  - destruct (low_confidence_routing no_review_rules sample_uuid sample_time car_low_vision
                sample_metadata) as (r & Hev & Hlow & _).
    exists r. split; [exact Hev|].
    vm_compute in Hev. injection Hev as <-. apply Hlow. reflexivity.
  - destruct (low_confidence_routing default_rules sample_uuid sample_time car_at_threshold_vision
                sample_metadata) as (r & Hev & _ & Heq & _).
    exists r. split; [exact Hev|].
    vm_compute in Hev. injection Hev as <-. apply Heq. reflexivity.
Defined.

(** ** Confidence aggregation *)

Lemma firstn_min {A : Type} (n : nat) (l : list A) :
  firstn (Nat.min n (List.length l)) l = firstn n l.
Proof.
  destruct (Nat.le_ge_cases n (List.length l)) as [H|H].
  - now rewrite Nat.min_l.
  - rewrite Nat.min_r by exact H. now rewrite !firstn_all2.
Qed.

(** The aggregate confidence in terms of the values of the vision labels. *)
Lemma evaluate_confidence (rules : CleanlinessRules.t)
    (fresh : UUID) (now : datetime)
    (vr : VisionAnalysisResult.t) (md : ImageMetadata.t) (mo : option bool) :
  exists r,
    CleanlinessEvaluator.evaluate rules fresh now vr md mo = Ok r /\
    ConfidenceScore.value (AuditResult.overall_confidence r)
    = match vision_values vr with
      | [] => 0
      | _ :: _ => mean (firstn 5 (sorted_desc (fun q => q) (vision_values vr)))
      end.
Proof.
  destruct (evaluate_result rules fresh now vr md mo)
    as (r & c & Hev & Hcalc & Hc & _).
  exists r. split; [exact Hev|]. rewrite Hc.
  destruct (calculate_overall_confidence_ok
              (CleanlinessEvaluator._convert_labels rules
                 (VisionAnalysisResult.labels vr))) as (c' & Hcalc' & Hval).
  rewrite Hcalc in Hcalc'. injection Hcalc' as <-.
  rewrite Hval, convert_labels_values.
  unfold vision_values, CleanlinessEvaluator._convert_labels.
  now destruct (VisionAnalysisResult.labels vr).
Qed.



(** ** Negative labels *)

(** [_is_negative_label] decides the containment the specification
    words: some negative term, lower-cased, occurs in the lower-cased name. *)
Lemma is_negative_label_iff (rules : CleanlinessRules.t) (name : string) :
  CleanlinessEvaluator._is_negative_label rules name = true
  <-> name_matches (CleanlinessRules.negative_labels rules) name.
Proof.
  unfold CleanlinessEvaluator._is_negative_label, name_matches.
  rewrite existsb_exists.
  split; intros (term & Hin & H); exists term; (split; [exact Hin|]);
    now apply contains_iff.
Qed.

(** The outcome depends on the members of the set of negative terms
    only, not on the order in which they are listed or visited. *)
Lemma is_negative_label_members (rules rules' : CleanlinessRules.t) (name : string) :
  (forall term, In term (CleanlinessRules.negative_labels rules)
                <-> In term (CleanlinessRules.negative_labels rules')) ->
  CleanlinessEvaluator._is_negative_label rules name
  = CleanlinessEvaluator._is_negative_label rules' name.
Proof.
  intros H. apply eq_true_iff_eq. rewrite !is_negative_label_iff.
  unfold name_matches.
  split; intros (term & Hin & Hc); exists term; (split; [now apply H | exact Hc]).
Qed.

Lemma filter_convert_labels (rules : CleanlinessRules.t) (ls : list VisionLabel.t) :
  filter DetectedLabel.is_negative (CleanlinessEvaluator._convert_labels rules ls)
  = CleanlinessEvaluator._convert_labels rules
      (filter (fun v => CleanlinessEvaluator._is_negative_label rules
                          (VisionLabel.name v)) ls).
Proof.
  induction ls as [|v ls IH]; simpl.
  - reflexivity.
  - destruct (CleanlinessEvaluator._is_negative_label rules (VisionLabel.name v)) eqn:E;
      simpl; now rewrite IH, ?E.
Qed.

Lemma convert_labels_flags (rules : CleanlinessRules.t) (ls : list VisionLabel.t) :
  Forall (fun l => DetectedLabel.is_negative l
                   = CleanlinessEvaluator._is_negative_label rules
                       (DetectedLabel.name l))
         (CleanlinessEvaluator._convert_labels rules ls).
Proof.
  unfold CleanlinessEvaluator._convert_labels.
  apply Forall_map, Forall_forall. reflexivity.
Qed.

(** C5. The negative labels of an evaluation are exactly the detected
    labels whose name, lower-cased, contains some configured negative
    term, lower-cased: every detected label keeps the name and the
    confidence of the vision label it comes from, a detected label is
    among the negative ones exactly when its name matches, and the
    negative labels are the conversions of the matching vision labels,
    in order and one for each, however many terms match a name. *)
Theorem negative_labels_exact (rules : CleanlinessRules.t)
    (fresh : UUID) (now : datetime)
    (vr : VisionAnalysisResult.t) (md : ImageMetadata.t) (mo : option bool) :
  exists r,
    CleanlinessEvaluator.evaluate rules fresh now vr md mo = Ok r /\
    map DetectedLabel.name (AuditResult.detected_labels r)
    = map VisionLabel.name (VisionAnalysisResult.labels vr) /\
    map DetectedLabel.confidence (AuditResult.detected_labels r)
    = map VisionLabel.confidence (VisionAnalysisResult.labels vr) /\
    (exists matches : DetectedLabel.t -> bool,
        (forall l, matches l = true
                   <-> name_matches (CleanlinessRules.negative_labels rules)
                         (DetectedLabel.name l)) /\
        AuditResult.negative_labels r
        = filter matches (AuditResult.detected_labels r)) /\
    (forall l, In l (AuditResult.negative_labels r)
               <-> In l (AuditResult.detected_labels r) /\
                   name_matches (CleanlinessRules.negative_labels rules)
                     (DetectedLabel.name l)) /\
    AuditResult.negative_labels r
    = CleanlinessEvaluator._convert_labels rules
        (filter (fun v => CleanlinessEvaluator._is_negative_label rules
                            (VisionLabel.name v))
                (VisionAnalysisResult.labels vr)).
Proof.
  destruct (evaluate_result rules fresh now vr md mo)
    as (r & c & Hev & _ & _ & Hdet & Hneg & _).
  exists r. split; [exact Hev|].
  assert (AuditResult.negative_labels r
          = filter (fun l => CleanlinessEvaluator._is_negative_label rules
                               (DetectedLabel.name l))
                   (AuditResult.detected_labels r)) as Hfilter.
  { rewrite Hneg, Hdet. unfold CleanlinessEvaluator._identify_negative_labels.
    apply filter_ext_in. intros l Hl.
    pose proof (convert_labels_flags rules (VisionAnalysisResult.labels vr)) as F.
    rewrite Forall_forall in F. now apply F. }
  split; [|split; [|split; [|split]]].
  - rewrite Hdet. unfold CleanlinessEvaluator._convert_labels.
    now rewrite map_map.
  - rewrite Hdet. unfold CleanlinessEvaluator._convert_labels.
    now rewrite map_map.
  - exists (fun l => CleanlinessEvaluator._is_negative_label rules
                       (DetectedLabel.name l)).
    split; [intros l; apply is_negative_label_iff | exact Hfilter].
  - intros l. rewrite Hfilter, filter_In, is_negative_label_iff. reflexivity.
  - rewrite Hneg, Hdet. apply filter_convert_labels.
Qed.

(** A name that two negative terms occur in ("trash" and "spill") is
    listed once; names match whatever their case. *)
Lemma negative_labels_exact_witness :
  exists r,
    CleanlinessEvaluator.evaluate default_rules sample_uuid sample_time
      spill_vision sample_metadata None = Ok r /\
    map DetectedLabel.name (AuditResult.detected_labels r)
    = ["Car"; "TRASH Spill"; "rusty pipe"; "Tire"]%string /\
    map DetectedLabel.name (AuditResult.negative_labels r)
    = ["TRASH Spill"; "rusty pipe"]%string.
Proof.
  destruct (negative_labels_exact default_rules sample_uuid sample_time
              spill_vision sample_metadata None)
    as (r & Hev & Hnames & _ & _ & _ & Hneg).
  exists r. split; [exact Hev|]. split.
  - rewrite Hnames. reflexivity.
  - rewrite Hneg. reflexivity.
Defined.

(** ** The tolerance for negative labels *)

(** Once the confidence reaches the threshold, a tolerance that is not
    negative plays no part: any negative label gives [NOT_CLEAN]. *)
Lemma determine_status_any_negative (rules : CleanlinessRules.t)
    (negatives : list DetectedLabel.t) (c : ConfidenceScore.t) :
  CleanlinessRules.confidence_threshold rules <= ConfidenceScore.value c ->
  (0 <= CleanlinessRules.max_negative_labels rules)%Z ->
  CleanlinessEvaluator._determine_status rules negatives c None
  = match negatives with
    | _ :: _ => NOT_CLEAN
    | [] => CLEAN
    end.
Proof.
  intros Hc Hmax. rewrite determine_status_high by exact Hc.
  destruct negatives as [|l negatives].
  - destruct (_ >? _)%Z eqn:E; [|reflexivity].
    apply Z.gtb_lt in E. cbn [List.length] in E. lia.
  - now destruct (_ >? _)%Z.
Qed.

(** C2, at the rules [CleanlinessRules(max_negative_labels=2)] and the
    one label "Trash" of confidence 92: no manual override, the
    confidence 92 meets the threshold 80, there is one negative label
    and two are allowed, and the status is [NOT_CLEAN] all the same. *)
Theorem tolerated_negative_label_fails :
  exists r,
    CleanlinessEvaluator.evaluate tolerant_rules sample_uuid sample_time
      trash_vision sample_metadata None = Ok r /\
    CleanlinessRules.max_negative_labels tolerant_rules = 2%Z /\
    List.length (AuditResult.negative_labels r) = 1%nat /\
    CleanlinessRules.confidence_threshold tolerant_rules
      <= ConfidenceScore.value (AuditResult.overall_confidence r) /\
    AuditResult.status r = NOT_CLEAN.
Proof.
  eexists. split; [vm_compute; reflexivity|].
  repeat split. vm_compute. discriminate.
Qed.

(** ** Image metadata *)

(** What [is_valid_for_analysis] computes: a dimension that is absent
    or zero switches the resolution check off. *)
Lemma is_valid_for_analysis_iff (m : ImageMetadata.t) :
  ImageMetadata.is_valid_for_analysis m = true
  <-> (ImageMetadata.file_size_bytes m <= 15 * 1024 * 1024)%Z /\
      (forall w h,
          ImageMetadata.width_px m = Some w -> ImageMetadata.height_px m = Some h ->
          w <> 0%Z -> h <> 0%Z -> (640 <= w)%Z /\ (480 <= h)%Z).
Proof.
  unfold ImageMetadata.is_valid_for_analysis, int_truthy.
  destruct (Z.gtb_spec (ImageMetadata.file_size_bytes m) (15 * 1024 * 1024))
    as [Hs|Hs].
  { split; [discriminate | intros [H _]; lia]. }
  destruct (ImageMetadata.width_px m) as [w|];
    [|split; [intros _; split; [lia | discriminate] | reflexivity]].
  destruct (ImageMetadata.height_px m) as [h|];
    [|split; [intros _; split; [lia | discriminate] | reflexivity]].
  destruct (Z.eqb_spec w 0) as [Hw|Hw]; cbn [negb andb].
  { split; [|reflexivity]. intros _. split; [lia|].
    intros w' h' [= <-] [= <-]. congruence. }
  destruct (Z.eqb_spec h 0) as [Hh|Hh]; cbn [negb andb].
  { split; [|reflexivity]. intros _. split; [lia|].
    intros w' h' [= <-] [= <-]. congruence. }
  destruct (Z.ltb_spec w 640) as [Hw6|Hw6]; cbn [orb].
  { split; [discriminate|]. intros [_ H].
    destruct (H w h eq_refl eq_refl Hw Hh). lia. }
  destruct (Z.ltb_spec h 480) as [Hh4|Hh4].
  { split; [discriminate|]. intros [_ H].
    destruct (H w h eq_refl eq_refl Hw Hh). lia. }
  split; [|reflexivity]. intros _. split; [lia|].
  intros w' h' [= <-] [= <-] _ _. lia.
Qed.

(** C9, at an image of 204800 bytes recorded as 0 by 100 pixels: both
    dimensions are known and both are below the minimum, and the image
    is valid for analysis all the same. *)
Theorem zero_width_image_is_valid :
  ImageMetadata.width_px zero_width_metadata = Some 0%Z /\
  ImageMetadata.height_px zero_width_metadata = Some 100%Z /\
  (ImageMetadata.file_size_bytes zero_width_metadata <= 15 * 1024 * 1024)%Z /\
  ImageMetadata.is_valid_for_analysis zero_width_metadata = true.
Proof.
  repeat split. vm_compute. discriminate.
Qed.

(** ** The audit result *)

Lemma generate_reason_nonempty (a : AuditResult.t) :
  AuditResult._generate_reason a <> ""%string.
Proof.
  unfold AuditResult._generate_reason.
  destruct (AuditResult.status a); try discriminate.
  destruct (AuditResult.negative_labels a); discriminate.
Qed.

(** No generated reason reads as a manual override. *)
Lemma generate_reason_not_override (a : AuditResult.t) (notes : string) :
  AuditResult._generate_reason a <> ("Manual override: " ++ notes)%string.
Proof.
  unfold AuditResult._generate_reason.
  destruct (AuditResult.status a); try discriminate.
  destruct (AuditResult.negative_labels a); discriminate.
Qed.

Lemma post_init_invariant (self : AuditResult.t) :
  audit_invariant (AuditResult.__post_init__ self).
Proof.
  unfold audit_invariant, AuditResult.__post_init__.
  destruct (AuditResult.reason self) as [[|ch s]|] eqn:E;
    cbn; rewrite ?E; cbn; rewrite ?E.
  - split; [reflexivity|]. eexists. split; [reflexivity|].
    apply generate_reason_nonempty.
  - split; [reflexivity|]. eexists. split; [reflexivity | discriminate].
  - split; [reflexivity|]. eexists. split; [reflexivity|].
    apply generate_reason_nonempty.
Qed.

Lemma apply_manual_override_invariant (now : datetime) (reviewer_id : string)
    (is_clean : bool) (notes : string) (self : AuditResult.t) :
  audit_invariant self ->
  audit_invariant
    (AuditResult.apply_manual_override now reviewer_id is_clean notes self).
Proof.
  intros [Hneg _]. split.
  - exact Hneg.
  - eexists. split; [reflexivity | discriminate].
Qed.

Lemma apply_overrides_invariant (calls : list override_call) (r : AuditResult.t) :
  audit_invariant r -> audit_invariant (apply_overrides calls r).
Proof.
  revert r. induction calls as [|c calls IH]; intros r H; simpl.
  - exact H.
  - apply IH. now apply apply_manual_override_invariant.
Qed.

(** C7. Right after construction, whatever keyword arguments were given
    (a [negative_labels] argument and a [reason] among them), and after
    any sequence of [apply_manual_override] calls, the negative labels
    are the detected labels flagged negative and the reason is a
    non-empty string. *)
Theorem audit_invariant_holds (fresh : UUID) (now : datetime)
    (md : ImageMetadata.t) (detected : list DetectedLabel.t)
    (confidence : ConfidenceScore.t) (status : CleanlinessStatus)
    (kw : AuditResult.kwargs) (calls : list override_call) :
  let r := apply_overrides calls
             (AuditResult.new fresh now md detected confidence status kw) in
  AuditResult.negative_labels r
  = filter DetectedLabel.is_negative (AuditResult.detected_labels r) /\
  exists s, AuditResult.reason r = Some s /\ s <> ""%string.
Proof.
  apply apply_overrides_invariant, post_init_invariant.
Qed.

(** C8. After [apply_manual_override(reviewer_id, is_clean, notes)] the
    override flag is [is_clean], the status is [CLEAN] or [NOT_CLEAN]
    accordingly, the reviewer and the time of the call are recorded, the
    reason is the message made from the notes, and the audit is
    finalized; [is_finalized] holds exactly when a reviewer is recorded. *)
Theorem apply_manual_override_effect (now : datetime) (reviewer_id : string)
    (is_clean : bool) (notes : string) (self : AuditResult.t) :
  let r := AuditResult.apply_manual_override now reviewer_id is_clean notes self in
  AuditResult.manual_override r = Some is_clean /\
  AuditResult.status r = (if is_clean then CLEAN else NOT_CLEAN) /\
  AuditResult.reviewed_by r = Some reviewer_id /\
  AuditResult.reviewed_at r = Some now /\
  AuditResult.reason r = Some ("Manual override: " ++ notes)%string /\
  AuditResult.is_finalized r = true /\
  (forall a, AuditResult.is_finalized a = true <-> AuditResult.reviewed_by a <> None).
Proof.
  repeat split; try reflexivity.
  - unfold AuditResult.is_finalized. destruct (AuditResult.reviewed_by a);
      [discriminate | discriminate].
  - unfold AuditResult.is_finalized. destruct (AuditResult.reviewed_by a);
      [reflexivity | congruence].
Qed.

(** C10. [apply_manual_override] leaves the identity, the image
    metadata, the detected and the negative labels, the confidence, the
    analysis time, the provider and the model version as they were. *)
Theorem apply_manual_override_frame (now : datetime) (reviewer_id : string)
    (is_clean : bool) (notes : string) (self : AuditResult.t) :
  let r := AuditResult.apply_manual_override now reviewer_id is_clean notes self in
  AuditResult.audit_id r = AuditResult.audit_id self /\
  AuditResult.image_metadata r = AuditResult.image_metadata self /\
  AuditResult.detected_labels r = AuditResult.detected_labels self /\
  AuditResult.negative_labels r = AuditResult.negative_labels self /\
  AuditResult.overall_confidence r = AuditResult.overall_confidence self /\
  AuditResult.analyzed_at r = AuditResult.analyzed_at self /\
  AuditResult.vision_provider r = AuditResult.vision_provider self /\
  AuditResult.model_version r = AuditResult.model_version self.
Proof.
  repeat split.
Qed.

(** C6, as the code has it.  The reason left by [apply_manual_override]
    is "Manual override: " followed by the notes, and no generated
    reason reads so.  [evaluate] takes no notes: with a manual override
    given, the override is recorded and the status forced, and the
    reason is the one generated for that status. *)
Theorem manual_override_reason (now : datetime) (reviewer_id : string)
    (is_clean : bool) (notes : string) (self : AuditResult.t)
    (rules : CleanlinessRules.t) (fresh : UUID)
    (vr : VisionAnalysisResult.t) (md : ImageMetadata.t) :
  (AuditResult.reason
     (AuditResult.apply_manual_override now reviewer_id is_clean notes self)
   = Some ("Manual override: " ++ notes)%string /\
   forall a,
     AuditResult.reason
       (AuditResult.apply_manual_override now reviewer_id is_clean notes self)
     <> Some (AuditResult._generate_reason a)) /\
  exists r,
    CleanlinessEvaluator.evaluate rules fresh now vr md (Some is_clean) = Ok r /\
    AuditResult.manual_override r = Some is_clean /\
    AuditResult.status r = (if is_clean then CLEAN else NOT_CLEAN) /\
    AuditResult.reason r = Some (AuditResult._generate_reason r).
Proof.
  split.
  - split; [reflexivity|]. intros a H. cbn in H. injection H as H.
    symmetry in H. revert H. apply generate_reason_not_override.
  - destruct (evaluate_result rules fresh now vr md (Some is_clean))
      as (r & c & Hev & _ & _ & _ & _ & Hst & Hmo & Hreason).
    exists r. repeat split; assumption.
Qed.

(** C6 fails for an override given to [evaluate]: with
    [manual_override=True] on the clean scenario the reason is the
    generated "No cleanliness issues detected", and with
    [manual_override=False] on the "Trash" scenario it is the generated
    "Issues detected: Trash"; neither reads "Manual override: ...". *)
Lemma evaluate_override_reason_is_generated :
  (exists r,
      CleanlinessEvaluator.evaluate default_rules sample_uuid sample_time
        clean_vision sample_metadata (Some true) = Ok r /\
      AuditResult.manual_override r = Some true /\
      AuditResult.reason r = Some "No cleanliness issues detected"%string /\
      forall notes,
        AuditResult.reason r <> Some ("Manual override: " ++ notes)%string) /\
  (exists r,
      CleanlinessEvaluator.evaluate default_rules sample_uuid sample_time
        trash_vision sample_metadata (Some false) = Ok r /\
      AuditResult.manual_override r = Some false /\
      AuditResult.reason r = Some "Issues detected: Trash"%string /\
      forall notes,
        AuditResult.reason r <> Some ("Manual override: " ++ notes)%string).
Proof.
  split; (eexists; split; [vm_compute; reflexivity|]);
    (split; [reflexivity|]); (split; [reflexivity|]);
    intros notes; cbn; discriminate.
Qed.

(** ** Further properties of the value objects and of the scenarios *)


(** The percentage format of the two extreme scores. *)
Theorem as_percentage_extremes :
  ConfidenceScore.as_percentage (ConfidenceScore.mk 0 eq_refl) = "0.00%"%string /\
  ConfidenceScore.as_percentage (ConfidenceScore.mk 100 eq_refl) = "100.00%"%string.
Proof. split; reflexivity. Qed.

(** The two predicates of a status, and the audit result's delegation. *)
Theorem status_predicates (s : CleanlinessStatus) (r : AuditResult.t) :
  (is_compliant s = true <-> s = CLEAN) /\
  (requires_human_intervention s = true
   <-> s = REQUIRES_MANUAL_REVIEW \/ s = INSUFFICIENT_DATA) /\
  AuditResult.passes_compliance r = is_compliant (AuditResult.status r) /\
  AuditResult.requires_review r
  = requires_human_intervention (AuditResult.status r).
Proof.
  repeat split; try (destruct s; simpl; intros; try discriminate; auto; fail).
  destruct s; simpl; intros [H|H]; try reflexivity; discriminate.
Qed.

(** The outcome of [evaluate] does not depend on the identity drawn or
    on the time read: two evaluations of the same input agree on the
    status, the confidence, the labels and the reason. *)
Theorem evaluate_deterministic (rules : CleanlinessRules.t)
    (fresh fresh' : UUID) (now now' : datetime)
    (vr : VisionAnalysisResult.t) (md : ImageMetadata.t) (mo : option bool) :
  exists r r',
    CleanlinessEvaluator.evaluate rules fresh now vr md mo = Ok r /\
    CleanlinessEvaluator.evaluate rules fresh' now' vr md mo = Ok r' /\
    AuditResult.status r = AuditResult.status r' /\
    AuditResult.overall_confidence r = AuditResult.overall_confidence r' /\
    AuditResult.detected_labels r = AuditResult.detected_labels r' /\
    AuditResult.negative_labels r = AuditResult.negative_labels r' /\
    AuditResult.reason r = AuditResult.reason r'.
Proof.
  unfold CleanlinessEvaluator.evaluate.
  destruct (calculate_overall_confidence_ok
              (CleanlinessEvaluator._convert_labels rules
                 (VisionAnalysisResult.labels vr))) as (c & Hc & _).
  rewrite Hc. cbn [bind].
  do 2 eexists. split; [reflexivity|]. split; [reflexivity|].
  repeat split.
Qed.

(** The default-rules scenario: one label "Trash" of confidence 92. *)
Theorem trash_scenario :
  exists r,
    CleanlinessEvaluator.evaluate default_rules sample_uuid sample_time
      trash_vision sample_metadata None = Ok r /\
    ConfidenceScore.value (AuditResult.overall_confidence r) == 92 /\
    AuditResult.status r = NOT_CLEAN /\
    AuditResult.reason r = Some "Issues detected: Trash"%string.
Proof.
  eexists. split; [vm_compute; reflexivity|]. repeat split.
Qed.

(** The clean scenario: "Car" at 95 and "Tire" at 88. *)
Theorem clean_scenario :
  exists r,
    CleanlinessEvaluator.evaluate default_rules sample_uuid sample_time
      clean_vision sample_metadata None = Ok r /\
    AuditResult.status r = CLEAN /\
    AuditResult.negative_labels r = [] /\
    AuditResult.reason r = Some "No cleanliness issues detected"%string.
Proof.
  eexists. split; [vm_compute; reflexivity|]. repeat split.
Qed.

(** With no detection at all and a positive threshold, the verdict is
    left to a human or declared insufficient, never [CLEAN]. *)
Theorem empty_labels_never_clean (rules : CleanlinessRules.t)
    (fresh : UUID) (now : datetime)
    (vr : VisionAnalysisResult.t) (md : ImageMetadata.t) :
  VisionAnalysisResult.labels vr = [] ->
  0 < CleanlinessRules.confidence_threshold rules ->
  exists r,
    CleanlinessEvaluator.evaluate rules fresh now vr md None = Ok r /\
    ConfidenceScore.value (AuditResult.overall_confidence r) = 0 /\
    AuditResult.status r
    = (if CleanlinessRules.require_review_on_low_confidence rules
       then REQUIRES_MANUAL_REVIEW else INSUFFICIENT_DATA) /\
    AuditResult.status r <> CLEAN.
Proof.
  intros Hl Hthr.
  destruct (evaluate_confidence rules fresh now vr md None) as (r & Hev & Hval).
  destruct (evaluate_result rules fresh now vr md None)
    as (r' & c & Hev' & _ & Hc & _ & _ & Hst & _).
  rewrite Hev in Hev'. injection Hev' as <-.
  unfold vision_values in Hval. rewrite Hl in Hval. cbn [map] in Hval.
  exists r. split; [exact Hev|]. split; [exact Hval|].
  assert (AuditResult.status r
          = if CleanlinessRules.require_review_on_low_confidence rules
            then REQUIRES_MANUAL_REVIEW else INSUFFICIENT_DATA) as E.
  { rewrite Hst. apply determine_status_low. rewrite <- Hc, Hval. exact Hthr. }
  split; [exact E|]. rewrite E.
  destruct (CleanlinessRules.require_review_on_low_confidence rules); discriminate.
Qed.

Lemma empty_labels_never_clean_witness :
  exists r,
    CleanlinessEvaluator.evaluate default_rules sample_uuid sample_time
      (vision_of []) sample_metadata None = Ok r /\
    ConfidenceScore.value (AuditResult.overall_confidence r) = 0 /\
    AuditResult.status r = REQUIRES_MANUAL_REVIEW /\
    AuditResult.status r <> CLEAN.
Proof.
  apply (empty_labels_never_clean default_rules sample_uuid sample_time
           (vision_of []) sample_metadata); reflexivity.
Defined.

(** What the status decision computes once the confidence reaches the
    threshold, for a tolerance that is not negative: [NOT_CLEAN] as soon
    as there is a negative label, [CLEAN] otherwise. *)
Theorem status_without_tolerance (rules : CleanlinessRules.t)
    (fresh : UUID) (now : datetime)
    (vr : VisionAnalysisResult.t) (md : ImageMetadata.t) :
  (0 <= CleanlinessRules.max_negative_labels rules)%Z ->
  exists r,
    CleanlinessEvaluator.evaluate rules fresh now vr md None = Ok r /\
    (CleanlinessRules.confidence_threshold rules
       <= ConfidenceScore.value (AuditResult.overall_confidence r) ->
     AuditResult.status r
     = match AuditResult.negative_labels r with
       | _ :: _ => NOT_CLEAN
       | [] => CLEAN
       end).
Proof.
  intros Hmax.
  destruct (evaluate_result rules fresh now vr md None)
    as (r & c & Hev & _ & Hc & _ & _ & Hst & _).
  exists r. split; [exact Hev|]. rewrite Hc, Hst.
  intros H. now apply determine_status_any_negative.
Qed.

Lemma status_without_tolerance_witness :
  exists r,
    CleanlinessEvaluator.evaluate tolerant_rules sample_uuid sample_time
      trash_vision sample_metadata None = Ok r /\
    AuditResult.status r = NOT_CLEAN.
Proof.
  destruct (status_without_tolerance tolerant_rules sample_uuid sample_time
              trash_vision sample_metadata) as (r & Hev & Hst).
  - vm_compute. discriminate.
  - exists r. split; [exact Hev|].
    vm_compute in Hev. injection Hev as <-. apply Hst. vm_compute. discriminate.
Defined.

(** ** The stable ascending sort *)

Lemma StronglySorted_impl {A : Type} (R S : A -> A -> Prop) (l : list A) :
  (forall a b, R a b -> S a b) -> StronglySorted R l -> StronglySorted S l.
Proof.
  intros H. induction 1 as [|x l _ IH Hx]; constructor.
  - exact IH.
  - eapply Forall_impl; [|exact Hx]. intros b. apply H.
Qed.

Section SortedAscFacts.
Context {A : Type} (key : A -> Q).

Lemma Qle_bool_opp (x y : Q) : Qle_bool (- y) (- x) = Qle_bool x y.
Proof.
  apply eq_true_iff_eq. rewrite !Qle_bool_iff. split; intros H; lra.
Qed.

Lemma insert_asc_desc (x : A) (l : list A) :
  insert_asc key x l = insert_desc (fun a => - key a) x l.
Proof.
  induction l as [|y l IH]; simpl.
  - reflexivity.
  - rewrite Qle_bool_opp. now rewrite IH.
Qed.

(** Sorting upwards is sorting downwards by the opposite key. *)
Lemma sorted_asc_desc (l : list A) :
  sorted_asc key l = sorted_desc (fun a => - key a) l.
Proof.
  induction l as [|x l IH]; simpl.
  - reflexivity.
  - now rewrite insert_asc_desc, IH.
Qed.

Lemma sorted_asc_perm (l : list A) : Permutation l (sorted_asc key l).
Proof. rewrite sorted_asc_desc. apply sorted_desc_perm. Qed.

Lemma sorted_asc_sorted (l : list A) :
  StronglySorted (asc key) (sorted_asc key l).
Proof.
  rewrite sorted_asc_desc.
  eapply StronglySorted_impl; [|apply sorted_desc_sorted].
  intros a b H. unfold desc, asc in *. lra.
Qed.

Lemma sorted_asc_stable (k : Q) (l : list A) :
  filter (fun a => Qeq_bool (key a) k) (sorted_asc key l)
  = filter (fun a => Qeq_bool (key a) k) l.
Proof.
  assert (forall a, Qeq_bool (key a) k = Qeq_bool (- key a) (- k)) as E.
  { intros a. apply eq_true_iff_eq.
    rewrite !Qeq_bool_iff. split; intros H; lra. }
  rewrite sorted_asc_desc, !(filter_ext _ _ E).
  apply (sorted_desc_stable (fun a => - key a) (- k) l).
Qed.
End SortedAscFacts.

(** ** Factories of confidence scores *)


(** ** The age of an image *)

Lemma microseconds_per_day_pos : (0 < ImageMetadata.microseconds_per_day)%Z.
Proof. reflexivity. Qed.

(** The age in days is the one number of days [d] with
    [captured_at + d days <= reference_time < captured_at + (d + 1) days]:
    whole days, rounded down, negative as soon as the reference time is
    before the capture; and it grows with the reference time. *)
Theorem age_in_days_characterised (m : ImageMetadata.t) (reference_time : datetime) :
  (forall d : Z,
      ImageMetadata.age_in_days m reference_time = d
      <-> (ImageMetadata.captured_at m + d * ImageMetadata.microseconds_per_day
           <= reference_time
           < ImageMetadata.captured_at m
             + (d + 1) * ImageMetadata.microseconds_per_day)%Z) /\
  (ImageMetadata.age_in_days m reference_time < 0
   <-> reference_time < ImageMetadata.captured_at m)%Z /\
  (forall later : datetime,
      (reference_time <= later)%Z ->
      (ImageMetadata.age_in_days m reference_time
       <= ImageMetadata.age_in_days m later)%Z).
Proof.
  unfold ImageMetadata.age_in_days.
  pose proof microseconds_per_day_pos as Hpos.
  set (day := ImageMetadata.microseconds_per_day) in *.
  set (c := ImageMetadata.captured_at m).
  split; [|split].
  - intros d. split.
    + intros <-.
      pose proof (Z.mul_div_le (reference_time - c) day Hpos).
      pose proof (Z.mul_succ_div_gt (reference_time - c) day Hpos).
      lia.
    + intros [H1 H2]. symmetry. apply (Z.div_unique_pos _ _ _ (reference_time - c - d * day)); lia.
  - split; intros H.
    + destruct (Z.lt_ge_cases reference_time c) as [Hlt|Hge]; [exact Hlt|].
      pose proof (Z.div_pos (reference_time - c) day). lia.
    + apply Z.div_lt_upper_bound; lia.
  - intros later Hle. apply Z.div_le_mono; lia.
Qed.

(** ** The most confident label *)

Section MaxFacts.
Context {A : Type} (key : A -> Q).

(** The running maximum ends on the first element that none exceeds. *)
Lemma max_from_first (best : A) (l : list A) :
  exists before after,
    best :: l = before ++ max_from key best l :: after /\
    (forall x, In x before -> key x < key (max_from key best l)) /\
    (forall x, In x after -> key x <= key (max_from key best l)).
Proof.
  revert best. induction l as [|y l IH]; intros best; simpl.
  - exists [], []. split; [reflexivity|]. split; intros x [].
  - destruct (Qle_bool (key y) (key best)) eqn:E.
    + apply Qle_bool_iff in E.
      destruct (IH best) as (before & after & Heq & Hb & Ha).
      destruct before as [|b before]; simpl in Heq.
      * injection Heq as Hbest Hl.
        exists [], (y :: l). split; [now rewrite <- Hbest|].
        split; [intros x []|].
        intros x [<-|Hx]; [now rewrite <- Hbest|].
        apply Ha. rewrite <- Hl. exact Hx.
      * injection Heq as <- Hl.
        exists (best :: y :: before), after.
        split; [simpl; do 2 f_equal; exact Hl|].
        split; [|exact Ha].
        intros x [<-|[<-|Hx]].
        -- apply Hb. now left.
        -- eapply Qle_lt_trans; [exact E|]. apply Hb. now left.
        -- apply Hb. now right.
    + assert (key best < key y) as Hlt.
      { apply Qnot_le_lt. intros H. apply Qle_bool_iff in H. congruence. }
      destruct (IH y) as (before & after & Heq & Hb & Ha).
      exists (best :: before), after.
      split; [simpl; f_equal; exact Heq|].
      split; [|exact Ha].
      intros x [<-|Hx]; [|now apply Hb].
      destruct before as [|b before]; simpl in Heq.
      * injection Heq as Hy _. now rewrite <- Hy.
      * injection Heq as <- _. eapply Qlt_trans; [exact Hlt|].
        apply Hb. now left.
Qed.
End MaxFacts.

(** [highest_confidence_label] raises on a result without labels;
    otherwise it returns a label of the result that no label exceeds in
    confidence, and of several such the one that comes first. *)
Theorem highest_confidence_label_first_maximum (vr : VisionAnalysisResult.t) :
  (VisionAnalysisResult.labels vr = [] <->
   exists e, VisionAnalysisResult.highest_confidence_label vr = Raise e) /\
  (VisionAnalysisResult.labels vr <> [] ->
   exists before best after,
     VisionAnalysisResult.highest_confidence_label vr = Ok best /\
     VisionAnalysisResult.labels vr = before ++ best :: after /\
     (forall l, In l before ->
        ConfidenceScore.value (VisionLabel.confidence l)
        < ConfidenceScore.value (VisionLabel.confidence best)) /\
     (forall l, In l after ->
        ConfidenceScore.value (VisionLabel.confidence l)
        <= ConfidenceScore.value (VisionLabel.confidence best))).
Proof.
  unfold VisionAnalysisResult.highest_confidence_label, py_max.
  destruct (VisionAnalysisResult.labels vr) as [|l ls].
  - split; [|congruence]. split; [eauto | reflexivity].
  - split.
    + split; [discriminate | intros [e H]; discriminate].
    + intros _.
      destruct (max_from_first
                  (fun x => ConfidenceScore.value (VisionLabel.confidence x)) l ls)
        as (before & after & Heq & Hb & Ha).
      eexists before, _, after. split; [reflexivity|].
      repeat split; assumption.
Qed.

(** ** Bounds on the aggregate confidence *)















(** ** The order of the labels *)

Lemma top5_mean_perm (vs vs' : list Q) :
  vs <> [] -> Permutation vs vs' ->
  mean (firstn 5 (sorted_desc (fun q => q) vs))
  == mean (firstn 5 (sorted_desc (fun q => q) vs')).
Proof.
  intros Hne P.
  set (s := sorted_desc (fun q : Q => q) vs).
  set (s' := sorted_desc (fun q : Q => q) vs').
  assert (List.length s = List.length vs) as L by apply sorted_desc_length.
  assert (List.length s' = List.length vs') as L' by apply sorted_desc_length.
  pose proof (Permutation_length P) as LP.
  assert (List.length (firstn 5 s') = List.length (firstn 5 s)) as Ltop
    by (rewrite !length_firstn; lia).
  assert (sum (firstn (List.length (firstn 5 s')) s) == sum (firstn 5 s')) as Hs.
  { apply (top_sum_unique vs (firstn 5 s') (skipn 5 s')).
    - rewrite firstn_skipn. transitivity vs'; [exact P|]. apply sorted_desc_perm.
    - apply (StronglySorted_app_cross Qdesc). rewrite firstn_skipn.
      apply sorted_desc_sorted. }
  fold s in Hs.
  assert (firstn (List.length (firstn 5 s')) s = firstn 5 s) as F.
  { rewrite Ltop, length_firstn. apply firstn_min. }
  rewrite F in Hs. unfold mean. rewrite Hs, Ltop. reflexivity.
Qed.

Lemma determine_status_proper (rules : CleanlinessRules.t)
    (negatives negatives' : list DetectedLabel.t)
    (c c' : ConfidenceScore.t) (mo : option bool) :
  ConfidenceScore.value c == ConfidenceScore.value c' ->
  List.length negatives = List.length negatives' ->
  CleanlinessEvaluator._determine_status rules negatives c mo
  = CleanlinessEvaluator._determine_status rules negatives' c' mo.
Proof.
  intros Hc Hl. unfold CleanlinessEvaluator._determine_status.
  destruct mo; [reflexivity|].
  assert (ConfidenceScore.is_above_threshold c
            (CleanlinessRules.confidence_threshold rules)
          = ConfidenceScore.is_above_threshold c'
              (CleanlinessRules.confidence_threshold rules)) as ->.
  { apply eq_true_iff_eq. rewrite !is_above_threshold_iff. now rewrite Hc. }
  rewrite Hl.
  destruct negatives, negatives'; try discriminate; reflexivity.
Qed.

(** The order in which the provider lists the labels does not matter
    for the verdict: two evaluations whose labels are the same up to
    their order (under the same rules and override) have the same
    status and the same aggregate confidence, and their detected and
    negative labels are the same up to their order. *)
Theorem evaluate_order_independent (rules : CleanlinessRules.t)
    (fresh fresh' : UUID) (now now' : datetime)
    (vr vr' : VisionAnalysisResult.t) (md md' : ImageMetadata.t)
    (mo : option bool) :
  Permutation (VisionAnalysisResult.labels vr) (VisionAnalysisResult.labels vr') ->
  exists r r',
    CleanlinessEvaluator.evaluate rules fresh now vr md mo = Ok r /\
    CleanlinessEvaluator.evaluate rules fresh' now' vr' md' mo = Ok r' /\
    AuditResult.status r = AuditResult.status r' /\
    ConfidenceScore.value (AuditResult.overall_confidence r)
    == ConfidenceScore.value (AuditResult.overall_confidence r') /\
    Permutation (AuditResult.detected_labels r) (AuditResult.detected_labels r') /\
    Permutation (AuditResult.negative_labels r) (AuditResult.negative_labels r').
Proof.
  intros P.
  destruct (evaluate_result rules fresh now vr md mo)
    as (r & c & Hev & _ & Hc & Hdet & Hneg & Hst & _).
  destruct (evaluate_result rules fresh' now' vr' md' mo)
    as (r' & c' & Hev' & _ & Hc' & Hdet' & Hneg' & Hst' & _).
  destruct (evaluate_confidence rules fresh now vr md mo) as (r0 & Hev0 & Hval).
  rewrite Hev in Hev0. injection Hev0 as <-.
  destruct (evaluate_confidence rules fresh' now' vr' md' mo) as (r0 & Hev0 & Hval').
  rewrite Hev' in Hev0. injection Hev0 as <-.
  assert (Permutation (AuditResult.detected_labels r)
                      (AuditResult.detected_labels r')) as Pdet.
  { rewrite Hdet, Hdet'. now apply Permutation_map. }
  assert (Permutation (AuditResult.negative_labels r)
                      (AuditResult.negative_labels r')) as Pneg.
  { rewrite Hneg, Hneg'. unfold CleanlinessEvaluator._identify_negative_labels.
    clear -Pdet. induction Pdet as [|x l l' _ IH|x y l|l l' l'' _ IH1 _ IH2]; simpl.
    - constructor.
    - destruct (DetectedLabel.is_negative x); [now constructor | exact IH].
    - destruct (DetectedLabel.is_negative x), (DetectedLabel.is_negative y);
        try reflexivity. apply perm_swap.
    - now transitivity (filter DetectedLabel.is_negative l'). }
  assert (ConfidenceScore.value (AuditResult.overall_confidence r)
          == ConfidenceScore.value (AuditResult.overall_confidence r')) as Econf.
  { rewrite Hval, Hval'.
    assert (Permutation (vision_values vr) (vision_values vr')) as Pv
      by now apply Permutation_map.
    destruct (vision_values vr) as [|v vs] eqn:E.
    - apply Permutation_nil in Pv. rewrite Pv. reflexivity.
    - destruct (vision_values vr') as [|v' vs'] eqn:E'.
      + symmetry in Pv. now apply Permutation_nil in Pv.
      + apply top5_mean_perm; [discriminate | exact Pv]. }
  exists r, r'. split; [exact Hev|]. split; [exact Hev'|].
  split; [|split; [exact Econf | split; [exact Pdet | exact Pneg]]].
  rewrite Hst, Hst'. apply determine_status_proper.
  - now rewrite <- Hc, <- Hc'.
  - now apply Permutation_length.
Qed.

Lemma evaluate_order_independent_witness :
  exists r r',
    CleanlinessEvaluator.evaluate default_rules sample_uuid sample_time
      clean_vision sample_metadata None = Ok r /\
    CleanlinessEvaluator.evaluate default_rules sample_uuid sample_time
      clean_vision_reversed sample_metadata None = Ok r' /\
    AuditResult.status r = AuditResult.status r' /\
    ConfidenceScore.value (AuditResult.overall_confidence r)
    == ConfidenceScore.value (AuditResult.overall_confidence r').
Proof.
  destruct (evaluate_order_independent default_rules sample_uuid sample_uuid
              sample_time sample_time clean_vision clean_vision_reversed
              sample_metadata sample_metadata None)
    as (r & r' & Hev & Hev' & Hst & Hc & _).
  - apply perm_swap.
  - exists r, r'. repeat split; assumption.
Defined.

(** ** The verdicts of an evaluation without override *)



(** Under a negative tolerance every evaluation that reaches the
    confidence threshold is [NOT_CLEAN], even with no negative label at
    all; the reason is then "Status determination unclear". *)
Theorem negative_tolerance_fails_every_audit (rules : CleanlinessRules.t)
    (fresh : UUID) (now : datetime)
    (vr : VisionAnalysisResult.t) (md : ImageMetadata.t) :
  (CleanlinessRules.max_negative_labels rules < 0)%Z ->
  exists r,
    CleanlinessEvaluator.evaluate rules fresh now vr md None = Ok r /\
    (CleanlinessRules.confidence_threshold rules
       <= ConfidenceScore.value (AuditResult.overall_confidence r) ->
     AuditResult.status r = NOT_CLEAN /\
     (AuditResult.negative_labels r = [] ->
      AuditResult.reason r = Some "Status determination unclear"%string)).
Proof.
  intros Hmax.
  destruct (evaluate_result rules fresh now vr md None)
    as (r & c & Hev & _ & Hc & _ & _ & Hst & _ & Hreason).
  exists r. split; [exact Hev|]. rewrite Hc. intros Hhigh.
  assert (AuditResult.status r = NOT_CLEAN) as E.
  { rewrite Hst, determine_status_high by exact Hhigh.
    destruct (Z.gtb_spec (Z.of_nat (List.length (AuditResult.negative_labels r)))
                (CleanlinessRules.max_negative_labels rules)) as [G|G];
      [reflexivity | lia]. }
  split; [exact E|]. intros Hnone.
  rewrite Hreason. unfold AuditResult._generate_reason.
  now rewrite E, Hnone.
Qed.

Lemma negative_tolerance_fails_every_audit_witness :
  exists r,
    CleanlinessEvaluator.evaluate negative_tolerance_rules sample_uuid
      sample_time clean_vision sample_metadata None = Ok r /\
    AuditResult.status r = NOT_CLEAN /\
    AuditResult.negative_labels r = [] /\
    AuditResult.reason r = Some "Status determination unclear"%string.
Proof.
  destruct (negative_tolerance_fails_every_audit negative_tolerance_rules
              sample_uuid sample_time clean_vision sample_metadata)
    as (r & Hev & H); [reflexivity|].
  exists r. split; [exact Hev|].
  assert (AuditResult.negative_labels r = []) as Hnone.
  { vm_compute in Hev. injection Hev as <-. reflexivity. }
  destruct H as [Hst Hreason].
  - vm_compute in Hev. injection Hev as <-. vm_compute. discriminate.
  - split; [exact Hst|]. split; [exact Hnone | exact (Hreason Hnone)].
Defined.

(** ** The sibling decision function of the status *)

(** [CleanlinessStatus.from_evaluation] decides as the evaluator does
    when low confidence is to be reviewed and the tolerance is not
    negative; it never answers [INSUFFICIENT_DATA], which the evaluator
    answers for low confidence when no review is asked for. *)
Theorem from_evaluation_agrees (rules : CleanlinessRules.t)
    (negatives : list DetectedLabel.t) (c : ConfidenceScore.t)
    (mo : option bool) :
  CleanlinessRules.require_review_on_low_confidence rules = true ->
  (0 <= CleanlinessRules.max_negative_labels rules)%Z ->
  CleanlinessEvaluator._determine_status rules negatives c mo
  = from_evaluation
      (map DetectedLabel.name negatives)
      (negb (ConfidenceScore.is_above_threshold c
               (CleanlinessRules.confidence_threshold rules)))
      mo
  /\ (forall names below mo', from_evaluation names below mo' <> INSUFFICIENT_DATA).
Proof.
  intros Hflag Hmax. split.
  - unfold from_evaluation. destruct mo as [b|]; [reflexivity|].
    destruct (ConfidenceScore.is_above_threshold c _) eqn:E; cbn [negb].
    + apply is_above_threshold_iff in E.
      rewrite (determine_status_any_negative rules negatives c E Hmax).
      now destruct negatives.
    + unfold CleanlinessEvaluator._determine_status. now rewrite E, Hflag.
  - intros names below [[]|]; simpl; try discriminate.
    destruct below; [discriminate|]. destruct names; discriminate.
Qed.

Lemma from_evaluation_agrees_witness :
  CleanlinessEvaluator._determine_status default_rules []
    (ConfidenceScore.mk 40 eq_refl) None
  = REQUIRES_MANUAL_REVIEW
  /\ from_evaluation [] true None = REQUIRES_MANUAL_REVIEW.
Proof.
  destruct (from_evaluation_agrees default_rules [] (ConfidenceScore.mk 40 eq_refl)
              None) as [H _]; [reflexivity | discriminate |].
  split; [rewrite H|]; reflexivity.
Defined.

(** ** Laws of the matching of negative terms *)

Lemma lower_ascii_idem (c : ascii) : lower_ascii (lower_ascii c) = lower_ascii c.
Proof.
  destruct c as [[] [] [] [] [] [] [] []]; reflexivity.
Qed.

Lemma lower_idem (s : string) : lower (lower s) = lower s.
Proof.
  induction s as [|c s IH]; simpl.
  - reflexivity.
  - now rewrite lower_ascii_idem, IH.
Qed.



Lemma existsb_map_lower (f : string -> bool) (l : list string) :
  existsb f (map lower l) = existsb (fun t => f (lower t)) l.
Proof.
  induction l as [|t l IH]; simpl; [reflexivity | now rewrite IH].
Qed.

Lemma filter_all {A : Type} (f : A -> bool) (l : list A) :
  (forall x, In x l -> f x = true) -> filter f l = l.
Proof.
  induction l as [|x l IH]; intros H; simpl.
  - reflexivity.
  - rewrite (H x) by now left. f_equal. apply IH. intros y Hy. apply H. now right.
Qed.

Lemma filter_none {A : Type} (f : A -> bool) (l : list A) :
  (forall x, In x l -> f x = false) -> filter f l = [].
Proof.
  induction l as [|x l IH]; intros H; simpl.
  - reflexivity.
  - rewrite (H x) by now left. apply IH. intros y Hy. apply H. now right.
Qed.

(** The case of the letters plays no part in the matching: two names
    that differ in case only are flagged alike, and so is a name under
    two sets of terms that differ in case only. *)
Theorem matching_ignores_case (rules : CleanlinessRules.t) :
  (forall name name',
      lower name = lower name' ->
      CleanlinessEvaluator._is_negative_label rules name
      = CleanlinessEvaluator._is_negative_label rules name') /\
  (forall name,
      CleanlinessEvaluator._is_negative_label rules (lower name)
      = CleanlinessEvaluator._is_negative_label rules name) /\
  (forall rules' name,
      map lower (CleanlinessRules.negative_labels rules')
      = map lower (CleanlinessRules.negative_labels rules) ->
      CleanlinessEvaluator._is_negative_label rules' name
      = CleanlinessEvaluator._is_negative_label rules name).
Proof.
  split; [|split].
  - intros name name' H. unfold CleanlinessEvaluator._is_negative_label.
    now rewrite H.
  - intros name. unfold CleanlinessEvaluator._is_negative_label.
    now rewrite lower_idem.
  - intros rules' name H. unfold CleanlinessEvaluator._is_negative_label.
    rewrite <- !(existsb_map_lower (fun t => contains t (lower name))).
    now rewrite H.
Qed.



(** Two degenerate sets of terms.  The empty string occurs in every
    name: with it among the terms every label of every evaluation is
    negative.  With no term at all no label is, and an evaluation
    without override under a tolerance that is not negative is never
    [NOT_CLEAN]. *)
Theorem degenerate_negative_terms (rules : CleanlinessRules.t)
    (fresh : UUID) (now : datetime)
    (vr : VisionAnalysisResult.t) (md : ImageMetadata.t) :
  exists r,
    CleanlinessEvaluator.evaluate rules fresh now vr md None = Ok r /\
    (In ""%string (CleanlinessRules.negative_labels rules) ->
     AuditResult.negative_labels r = AuditResult.detected_labels r) /\
    (CleanlinessRules.negative_labels rules = [] ->
     AuditResult.negative_labels r = [] /\
     ((0 <= CleanlinessRules.max_negative_labels rules)%Z ->
      AuditResult.status r <> NOT_CLEAN)).
Proof.
  destruct (evaluate_result rules fresh now vr md None)
    as (r & c & Hev & _ & Hc & Hdet & Hneg & Hst & _).
  exists r. split; [exact Hev|].
  pose proof (convert_labels_flags rules (VisionAnalysisResult.labels vr)) as F.
  rewrite <- Hdet in F. rewrite Forall_forall in F.
  split.
  - intros Hempty. rewrite Hneg.
    unfold CleanlinessEvaluator._identify_negative_labels.
    apply filter_all. intros l Hl.
    rewrite (F l Hl). apply is_negative_label_iff.
    exists ""%string. split; [exact Hempty|].
    exists ""%string, (lower (DetectedLabel.name l)). reflexivity.
  - intros Hnone.
    assert (AuditResult.negative_labels r = []) as E.
    { rewrite Hneg. unfold CleanlinessEvaluator._identify_negative_labels.
      apply filter_none. intros l Hl. rewrite (F l Hl).
      unfold CleanlinessEvaluator._is_negative_label. now rewrite Hnone. }
    split; [exact E|]. intros Hmax. rewrite Hst, E.
    unfold CleanlinessEvaluator._determine_status.
    destruct (ConfidenceScore.is_above_threshold c _); cbn [negb].
    + destruct (Z.gtb_spec (Z.of_nat (@List.length DetectedLabel.t []))
                  (CleanlinessRules.max_negative_labels rules)) as [G|G].
      * cbn [List.length] in G. lia.
      * discriminate.
    + destruct (CleanlinessRules.require_review_on_low_confidence rules);
        discriminate.
Qed.

(** ** Successive manual overrides *)

Lemma apply_manual_override_twice (now now' : datetime)
    (reviewer_id reviewer_id' : string) (is_clean is_clean' : bool)
    (notes notes' : string) (self : AuditResult.t) :
  AuditResult.apply_manual_override now' reviewer_id' is_clean' notes'
    (AuditResult.apply_manual_override now reviewer_id is_clean notes self)
  = AuditResult.apply_manual_override now' reviewer_id' is_clean' notes' self.
Proof. reflexivity. Qed.

Lemma apply_overrides_app (calls calls' : list override_call) (r : AuditResult.t) :
  apply_overrides (calls ++ calls') r
  = apply_overrides calls' (apply_overrides calls r).
Proof. unfold apply_overrides. apply fold_left_app. Qed.

(** Of several manual overrides only the last one shows: the audit is
    what that override alone would have made of it, so the earlier
    reviewer, time, verdict and notes are gone; it passes compliance
    exactly when the last verdict is clean and it asks for no review. *)
Theorem last_override_wins (calls : list override_call) (last : override_call)
    (r : AuditResult.t) :
  let r' := apply_overrides (calls ++ [last]) r in
  r' = AuditResult.apply_manual_override
         (oc_now last) (oc_reviewer_id last) (oc_is_clean last) (oc_notes last) r /\
  AuditResult.passes_compliance r' = oc_is_clean last /\
  AuditResult.requires_review r' = false /\
  AuditResult.is_finalized r' = true.
Proof.
  assert (apply_overrides (calls ++ [last]) r
          = AuditResult.apply_manual_override
              (oc_now last) (oc_reviewer_id last) (oc_is_clean last)
              (oc_notes last) r) as E.
  { rewrite apply_overrides_app. cbn [apply_overrides fold_left].
    induction calls as [|c calls IH] using rev_ind.
    - reflexivity.
    - rewrite apply_overrides_app. cbn [apply_overrides fold_left].
      etransitivity; [apply apply_manual_override_twice | exact IH]. }
  cbv zeta. rewrite E. split; [reflexivity|].
  unfold AuditResult.passes_compliance, AuditResult.requires_review. cbn.
  destruct (oc_is_clean last); repeat split.
Qed.

(** ** The dictionary of the repository *)

Section DictFacts.
Context {K V : Type} (eqb : K -> K -> bool).
Hypothesis eqb_eq : forall a b, eqb a b = true <-> a = b.

Lemma eqb_refl (k : K) : eqb k k = true.
Proof. now apply eqb_eq. Qed.

Lemma dict_get_set (k k' : K) (v : V) (d : list (K * V)) :
  dict_get eqb k' (dict_set eqb k v d)
  = if eqb k k' then Some v else dict_get eqb k' d.
Proof.
  induction d as [|[k0 v0] d IH]; simpl.
  - reflexivity.
  - destruct (eqb k0 k) eqn:E; simpl.
    + apply eqb_eq in E. subst k0. now destruct (eqb k k').
    + destruct (eqb k0 k') eqn:E'.
      * apply eqb_eq in E'. subst k0.
        destruct (eqb k k') eqn:E2; [|reflexivity].
        apply eqb_eq in E2. subst k. rewrite eqb_refl in E. discriminate.
      * exact IH.
Qed.

Lemma dict_get_In (k : K) (d : list (K * V)) :
  dict_get eqb k d <> None <-> In k (dict_keys d).
Proof.
  induction d as [|[k0 v0] d IH]; simpl.
  - split; [congruence | intros []].
  - destruct (eqb k0 k) eqn:E.
    + apply eqb_eq in E. split; [now left | discriminate].
    + rewrite IH. split; [now right | intros [H|H]; [|exact H]].
      apply eqb_eq in H. congruence.
Qed.

Lemma dict_get_value (k : K) (v : V) (d : list (K * V)) :
  dict_get eqb k d = Some v -> In v (dict_values d).
Proof.
  induction d as [|[k0 v0] d IH]; simpl.
  - discriminate.
  - destruct (eqb k0 k); [intros [= ->]; now left | right; now apply IH].
Qed.

Lemma dict_set_present (k : K) (v : V) (d : list (K * V)) :
  In k (dict_keys d) -> dict_keys (dict_set eqb k v d) = dict_keys d.
Proof.
  induction d as [|[k0 v0] d IH]; simpl.
  - intros [].
  - intros H. destruct (eqb k0 k) eqn:E; simpl; [reflexivity|].
    f_equal. apply IH. destruct H as [H|H]; [|exact H].
    apply eqb_eq in H. congruence.
Qed.

Lemma dict_set_absent (k : K) (v : V) (d : list (K * V)) :
  ~ In k (dict_keys d) -> dict_set eqb k v d = d ++ [(k, v)].
Proof.
  induction d as [|[k0 v0] d IH]; simpl.
  - reflexivity.
  - intros H. destruct (eqb k0 k) eqn:E.
    + apply eqb_eq in E. tauto.
    + f_equal. apply IH. tauto.
Qed.

Lemma dict_set_idem (k : K) (v : V) (d : list (K * V)) :
  dict_set eqb k v (dict_set eqb k v d) = dict_set eqb k v d.
Proof.
  induction d as [|[k0 v0] d IH]; simpl.
  - now rewrite eqb_refl.
  - destruct (eqb k0 k) eqn:E; simpl; rewrite E; [reflexivity | now rewrite IH].
Qed.

Lemma dict_set_NoDup (k : K) (v : V) (d : list (K * V)) :
  NoDup (dict_keys d) -> NoDup (dict_keys (dict_set eqb k v d)).
Proof.
  intros H.
  destruct (dict_get eqb k d) eqn:G.
  - rewrite dict_set_present; [exact H|]. apply dict_get_In. congruence.
  - assert (~ In k (dict_keys d)) as Hk.
    { intros Hin. apply dict_get_In in Hin. congruence. }
    rewrite dict_set_absent by exact Hk.
    unfold dict_keys. rewrite map_app. simpl.
    apply NoDup_app_remove_l with (l := []). simpl.
    apply Permutation_NoDup with (l := k :: map fst d).
    + apply Permutation_cons_append.
    + now constructor.
Qed.
End DictFacts.

Lemma dict_set_length {K V : Type} (eqb : K -> K -> bool) (k : K) (v : V)
    (d : list (K * V)) :
  (List.length (dict_set eqb k v d) <= S (List.length d))%nat.
Proof.
  induction d as [|[k0 v0] d IH]; simpl; [lia|].
  destruct (eqb k0 k); simpl; lia.
Qed.

Lemma Z_eqb_eq (a b : Z) : Z.eqb a b = true <-> a = b.
Proof. apply Z.eqb_eq. Qed.

(** ** The in-memory repository: saving and finding by identity *)

(** Saving and finding round-trip: after [save], [find_by_id] of the
    audit's identity returns the very object that was saved, whatever
    was stored under that identity before, and every other identity is
    found as before; an identity never saved is not found. *)
Theorem save_then_find (h : heap) (audit : ref) (audit_id : UUID)
    (self : InMemoryAuditRepository.t) :
  InMemoryAuditRepository.find_by_id audit_id
    (InMemoryAuditRepository.save h audit self)
  = (if (AuditResult.audit_id (h audit) =? audit_id)%Z
     then Some audit
     else InMemoryAuditRepository.find_by_id audit_id self) /\
  InMemoryAuditRepository.find_by_id audit_id
    InMemoryAuditRepository.__init__ = None.
Proof.
  split; [|reflexivity].
  unfold InMemoryAuditRepository.find_by_id, InMemoryAuditRepository.save.
  apply (dict_get_set Z.eqb Z_eqb_eq).
Qed.

(** [save] is an upsert.  Saving under an identity that is stored keeps
    the identities and their order and replaces the object; saving
    under a new identity adds one entry at the end; saving the same
    audit twice is saving it once; and no identity is ever stored
    twice. *)
Theorem save_is_upsert (h : heap) (audit : ref)
    (self : InMemoryAuditRepository.t) :
  (InMemoryAuditRepository.find_by_id (AuditResult.audit_id (h audit)) self
     <> None ->
   dict_keys (InMemoryAuditRepository.save h audit self) = dict_keys self) /\
  (InMemoryAuditRepository.find_by_id (AuditResult.audit_id (h audit)) self
     = None ->
   InMemoryAuditRepository.save h audit self
   = self ++ [(AuditResult.audit_id (h audit), audit)]) /\
  InMemoryAuditRepository.save h audit
    (InMemoryAuditRepository.save h audit self)
  = InMemoryAuditRepository.save h audit self /\
  (NoDup (dict_keys self) ->
   NoDup (dict_keys (InMemoryAuditRepository.save h audit self))).
Proof.
  unfold InMemoryAuditRepository.find_by_id, InMemoryAuditRepository.save.
  split; [|split; [|split]].
  - intros H. apply (dict_set_present Z.eqb Z_eqb_eq).
    now apply (dict_get_In Z.eqb Z_eqb_eq).
  - intros H. apply (dict_set_absent Z.eqb Z_eqb_eq).
    intros Hin. apply (dict_get_In Z.eqb Z_eqb_eq) in Hin. congruence.
  - apply (dict_set_idem Z.eqb Z_eqb_eq).
  - apply (dict_set_NoDup Z.eqb Z_eqb_eq).
Qed.

(** ** The in-memory repository: the queries *)

Lemma slice_to_firstn {A : Type} (stop : Z) (l : list A) :
  exists k, slice_to stop l = firstn k l /\
            List.length (slice_to stop l) = slice_length stop (List.length l).
Proof.
  unfold slice_to, slice_length. destruct (stop <? 0)%Z eqn:E.
  - eexists. split; [reflexivity|]. rewrite length_firstn.
    apply Z.ltb_lt in E. lia.
  - eexists. split; [reflexivity|]. apply length_firstn.
Qed.

Lemma sorted_newest_first (h : heap) (l : list ref) :
  StronglySorted (newest_first h)
    (sorted_desc (fun x => inject_Z (AuditResult.analyzed_at (h x))) l).
Proof.
  eapply StronglySorted_impl; [|apply sorted_desc_sorted].
  intros a b H. unfold desc in H. unfold newest_first.
  rewrite Zle_Qle. exact H.
Qed.

Lemma sorted_oldest_first (h : heap) (l : list ref) :
  StronglySorted (oldest_first h)
    (sorted_asc (fun x => inject_Z (AuditResult.analyzed_at (h x))) l).
Proof.
  eapply StronglySorted_impl; [|apply sorted_asc_sorted].
  intros a b H. unfold asc in H. unfold oldest_first.
  rewrite Zle_Qle. exact H.
Qed.

Lemma status_eqb_eq (a b : CleanlinessStatus) : status_eqb a b = true <-> a = b.
Proof. destruct a, b; simpl; split; congruence. Qed.

(** A query that filters the stored audits, sorts them and cuts the
    list: what is returned, followed by what is cut off, is the sorted
    arrangement of the audits that pass the filter. *)
Lemma query_shape (p : ref -> bool) (srt : list ref -> list ref)
    (limit : Z) (values : list ref) :
  (forall l, Permutation l (srt l)) ->
  exists rest,
    slice_to limit (srt (filter p values)) ++ rest = srt (filter p values) /\
    Permutation (filter p values)
                (slice_to limit (srt (filter p values)) ++ rest) /\
    List.length (slice_to limit (srt (filter p values)))
    = slice_length limit
        (List.length (slice_to limit (srt (filter p values)) ++ rest)).
Proof.
  intros Hperm.
  destruct (slice_to_firstn limit (srt (filter p values))) as (k & Hk & Hlen).
  exists (skipn k (srt (filter p values))).
  assert (slice_to limit (srt (filter p values))
            ++ skipn k (srt (filter p values))
          = srt (filter p values)) as E
    by (rewrite Hk; apply firstn_skipn).
  rewrite E. split; [reflexivity|]. split; [apply Hperm | exact Hlen].
Qed.

(** [find_by_dealer_and_checkpoint]: the audits returned, followed by
    those the limit cuts off, are exactly the stored audits of that
    dealer and checkpoint, each as often as it is stored, from the
    newest to the oldest.  Of [n] such audits a limit [k >= 0] returns
    the [min k n] newest; a negative limit [-k] does not fail but drops
    the [k] oldest. *)
Theorem find_by_dealer_and_checkpoint_newest_first (h : heap)
    (dealer_id checkpoint_id : string) (limit : Z)
    (self : InMemoryAuditRepository.t) :
  let result :=
    InMemoryAuditRepository.find_by_dealer_and_checkpoint
      h dealer_id checkpoint_id limit self in
  exists rest,
    (forall a, In a (result ++ rest)
               <-> In a (dict_values self) /\
                   at_checkpoint h dealer_id checkpoint_id a) /\
    (forall a, count_occ Nat.eq_dec (result ++ rest) a
               <= count_occ Nat.eq_dec (dict_values self) a)%nat /\
    StronglySorted (newest_first h) (result ++ rest) /\
    List.length result = slice_length limit (List.length (result ++ rest)).
Proof.
  cbv zeta. unfold InMemoryAuditRepository.find_by_dealer_and_checkpoint.
  set (p := fun audit : ref => (_ && _)%bool).
  set (srt := sorted_desc (fun x => inject_Z (AuditResult.analyzed_at (h x)))).
  destruct (query_shape p srt limit (dict_values self)) as (rest & Heq & P & L).
  { intros l. apply sorted_desc_perm. }
  exists rest. split; [|split; [|split]].
  - intros a. rewrite <- (Permutation_in' eq_refl P), filter_In.
    unfold p, at_checkpoint. now rewrite andb_true_iff, !String.eqb_eq.
  - intros a.
    rewrite <- (proj1 (Permutation_count_occ Nat.eq_dec _ _) P a).
    clear. induction (dict_values self) as [|x l IH]; simpl.
    + apply Nat.le_refl.
    + destruct (p x); simpl; destruct (Nat.eq_dec x a); lia.
  - rewrite Heq. apply sorted_newest_first.
  - exact L.
Qed.

Lemma find_pending_reviews_oldest_first_shape (h : heap) (limit : Z)
    (self : InMemoryAuditRepository.t) :
  exists rest,
    (forall a, In a (InMemoryAuditRepository.find_pending_reviews h limit self
                       ++ rest)
               <-> In a (dict_values self) /\ awaits_review h a) /\
    StronglySorted (oldest_first h)
      (InMemoryAuditRepository.find_pending_reviews h limit self ++ rest) /\
    List.length (InMemoryAuditRepository.find_pending_reviews h limit self)
    = slice_length limit
        (List.length
           (InMemoryAuditRepository.find_pending_reviews h limit self ++ rest)).
Proof.
  unfold InMemoryAuditRepository.find_pending_reviews.
  set (p := fun audit : ref => (_ && _)%bool).
  set (srt := sorted_asc (fun x => inject_Z (AuditResult.analyzed_at (h x)))).
  destruct (query_shape p srt limit (dict_values self)) as (rest & Heq & P & L).
  { intros l. apply sorted_asc_perm. }
  exists rest. split; [|split; [|exact L]].
  - intros a. rewrite <- (Permutation_in' eq_refl P), filter_In.
    unfold p, awaits_review, AuditResult.is_finalized.
    rewrite andb_true_iff, status_eqb_eq.
    destruct (AuditResult.reviewed_by (h a)); simpl;
      intuition (try discriminate; try congruence).
  - rewrite Heq. apply sorted_oldest_first.
Qed.


Lemma count_status_cons (h : heap) (s : CleanlinessStatus) (a : ref)
    (l : list ref) :
  count_status h s (a :: l)
  = ((if status_eqb (AuditResult.status (h a)) s then 1 else 0)
     + count_status h s l)%Z.
Proof.
  unfold count_status. simpl.
  destruct (status_eqb (AuditResult.status (h a)) s); cbn [List.length]; lia.
Qed.

Lemma increment_status (s : CleanlinessStatus) (c n r i : Z) :
  InMemoryAuditRepository.increment (status_value s)
    [("CLEAN"%string, c); ("NOT_CLEAN"%string, n);
     ("REQUIRES_MANUAL_REVIEW"%string, r); ("INSUFFICIENT_DATA"%string, i)]
  = Some [("CLEAN"%string, (c + if status_eqb s CLEAN then 1 else 0)%Z);
          ("NOT_CLEAN"%string, (n + if status_eqb s NOT_CLEAN then 1 else 0)%Z);
          ("REQUIRES_MANUAL_REVIEW"%string,
           (r + if status_eqb s REQUIRES_MANUAL_REVIEW then 1 else 0)%Z);
          ("INSUFFICIENT_DATA"%string,
           (i + if status_eqb s INSUFFICIENT_DATA then 1 else 0)%Z)].
Proof.
  destruct s; cbn; now rewrite !Z.add_0_r.
Qed.

Lemma count_by_status_from (h : heap) (l : list ref) (c n r i : Z) :
  fold_left
    (fun counts audit =>
       match counts with
       | Some counts =>
           InMemoryAuditRepository.increment
             (status_value (AuditResult.status (h audit))) counts
       | None => None
       end)
    l
    (Some [("CLEAN"%string, c); ("NOT_CLEAN"%string, n);
           ("REQUIRES_MANUAL_REVIEW"%string, r);
           ("INSUFFICIENT_DATA"%string, i)])
  = Some [("CLEAN"%string, (c + count_status h CLEAN l)%Z);
          ("NOT_CLEAN"%string, (n + count_status h NOT_CLEAN l)%Z);
          ("REQUIRES_MANUAL_REVIEW"%string,
           (r + count_status h REQUIRES_MANUAL_REVIEW l)%Z);
          ("INSUFFICIENT_DATA"%string,
           (i + count_status h INSUFFICIENT_DATA l)%Z)].
Proof.
  revert c n r i. induction l as [|a l IH]; intros c n r i.
  - cbn [fold_left]. unfold count_status. cbn. now rewrite !Z.add_0_r.
  - cbn [fold_left]. rewrite increment_status, IH, !count_status_cons.
    f_equal. repeat (apply (f_equal2 cons); [apply f_equal; lia|]).
    reflexivity.
Qed.

(** [count_by_status] never fails and counts every stored audit, of
    whatever dealer: the dealer identity it is given plays no part.  It
    returns the four statuses in the order of the enumeration, each
    with the number of stored audits of that status, and the four
    numbers add up to the number of stored audits. *)
Theorem count_by_status_counts_all (h : heap) (dealer_id : string)
    (self : InMemoryAuditRepository.t) :
  InMemoryAuditRepository.count_by_status h dealer_id self
  = Some [("CLEAN"%string, count_status h CLEAN (dict_values self));
          ("NOT_CLEAN"%string, count_status h NOT_CLEAN (dict_values self));
          ("REQUIRES_MANUAL_REVIEW"%string,
           count_status h REQUIRES_MANUAL_REVIEW (dict_values self));
          ("INSUFFICIENT_DATA"%string,
           count_status h INSUFFICIENT_DATA (dict_values self))] /\
  (count_status h CLEAN (dict_values self)
   + count_status h NOT_CLEAN (dict_values self)
   + count_status h REQUIRES_MANUAL_REVIEW (dict_values self)
   + count_status h INSUFFICIENT_DATA (dict_values self)
   = Z.of_nat (List.length self))%Z.
Proof.
  split.
  - unfold InMemoryAuditRepository.count_by_status. cbn [map all_statuses status_value].
    apply (count_by_status_from h (dict_values self) 0 0 0 0).
  - unfold dict_values. rewrite <- (length_map snd self).
    induction (map snd self) as [|a l IH].
    + reflexivity.
    + rewrite !count_status_cons. cbn [List.length]. rewrite Nat2Z.inj_succ.
      destruct (AuditResult.status (h a)); cbn [status_eqb]; lia.
Qed.

(** ** Audits on their way through the repository *)

(** What [evaluate] puts into the audit besides the verdict: the
    identity drawn, the time read, the metadata given, and no review. *)
Lemma evaluate_fresh_audit (rules : CleanlinessRules.t)
    (fresh : UUID) (now : datetime)
    (vr : VisionAnalysisResult.t) (md : ImageMetadata.t) (mo : option bool)
    (r : AuditResult.t) :
  CleanlinessEvaluator.evaluate rules fresh now vr md mo = Ok r ->
  AuditResult.audit_id r = fresh /\
  AuditResult.analyzed_at r = now /\
  AuditResult.image_metadata r = md /\
  AuditResult.reviewed_by r = None /\
  AuditResult.reviewed_at r = None.
Proof.
  unfold CleanlinessEvaluator.evaluate.
  destruct (CleanlinessEvaluator._calculate_overall_confidence _) as [c|e];
    cbn [bind]; [|discriminate].
  intros [= <-]. repeat split.
Qed.

Lemma slice_to_all {A : Type} (n : nat) (l : list A) :
  (List.length l <= n)%nat -> slice_to (Z.of_nat n) l = l.
Proof.
  intros H. unfold slice_to.
  destruct (Z.ltb_spec (Z.of_nat n) 0) as [Hn|Hn]; [lia|].
  rewrite Nat2Z.id. now apply firstn_all2.
Qed.

Lemma filter_length_le {A : Type} (p : A -> bool) (l : list A) :
  (List.length (filter p l) <= List.length l)%nat.
Proof.
  induction l as [|x l IH]; simpl; [lia|]. destruct (p x); simpl; lia.
Qed.

(** With a limit that covers the whole repository, the pending reviews
    are the stored audits that wait for a review. *)
Lemma find_pending_reviews_all (h : heap) (limit : Z)
    (self : InMemoryAuditRepository.t) (a : ref) :
  (Z.of_nat (List.length self) <= limit)%Z ->
  In a (InMemoryAuditRepository.find_pending_reviews h limit self)
  <-> In a (dict_values self) /\ awaits_review h a.
Proof.
  intros Hlimit. unfold InMemoryAuditRepository.find_pending_reviews.
  set (p := fun audit : ref => (_ && _)%bool).
  set (s := sorted_asc _ (filter p (dict_values self))).
  assert (List.length s <= List.length self)%nat as Hs.
  { unfold s. rewrite <- (Permutation_length (sorted_asc_perm _ _)).
    etransitivity; [apply filter_length_le|].
    unfold dict_values. now rewrite length_map. }
  assert (slice_to limit s = s) as ->.
  { unfold slice_to. destruct (Z.ltb_spec limit 0) as [Hn|Hn]; [lia|].
    apply firstn_all2. lia. }
  unfold s.
  rewrite <- (Permutation_in' eq_refl (sorted_asc_perm _ _)), filter_In.
  unfold p, awaits_review, AuditResult.is_finalized.
  rewrite andb_true_iff, status_eqb_eq.
  destruct (AuditResult.reviewed_by (h a)); simpl;
    intuition (try discriminate; try congruence).
Qed.

(** The repository holds the audit objects themselves.  A manual
    override applied to an audit takes it off the list of pending
    reviews at once, with no [save], whatever the limit; the other
    objects and their place on the list are untouched, and the audit is
    still found under its identity, now finalized. *)
Theorem override_shows_through_repository (now : datetime)
    (reviewer_id : string) (is_clean : bool) (notes : string)
    (audit : ref) (h : heap) (self : InMemoryAuditRepository.t) :
  let h' := apply_manual_override_at now reviewer_id is_clean notes audit h in
  (forall limit,
      ~ In audit (InMemoryAuditRepository.find_pending_reviews h' limit self)) /\
  (forall other, other <> audit -> h' other = h other) /\
  (forall other,
      other <> audit ->
      In other (InMemoryAuditRepository.find_pending_reviews
                  h' (Z.of_nat (List.length self)) self)
      <-> In other (InMemoryAuditRepository.find_pending_reviews
                      h (Z.of_nat (List.length self)) self)) /\
  AuditResult.is_finalized (h' audit) = true /\
  AuditResult.audit_id (h' audit) = AuditResult.audit_id (h audit).
Proof.
  cbv zeta. unfold apply_manual_override_at.
  set (h' := heap_set h audit _).
  assert (forall other, other <> audit -> h' other = h other) as Hother.
  { intros other Hne. unfold h', heap_set.
    destruct (Nat.eqb_spec other audit); [contradiction | reflexivity]. }
  assert (AuditResult.reviewed_by (h' audit) = Some reviewer_id) as Hrev.
  { unfold h', heap_set. now rewrite Nat.eqb_refl. }
  split; [|split; [exact Hother | split; [|split]]].
  - intros limit Hin.
    destruct (find_pending_reviews_oldest_first_shape h' limit self)
      as (rest & Hmem & _).
    assert (In audit (InMemoryAuditRepository.find_pending_reviews h' limit self
                        ++ rest)) as Hin' by (apply in_or_app; now left).
    apply Hmem in Hin' as [_ [_ Hnone]]. congruence.
  - intros other Hne.
    rewrite !find_pending_reviews_all by apply Z.le_refl.
    unfold awaits_review. now rewrite (Hother other Hne).
  - unfold AuditResult.is_finalized. now rewrite Hrev.
  - unfold h', heap_set. now rewrite Nat.eqb_refl.
Qed.

(** From the evaluator to the queue: an audit that [evaluate] returned
    with a confidence below the threshold, under rules that ask for a
    review, is on the list of pending reviews once it is saved (the
    limit covering the repository), and is found under the identity
    [evaluate] gave it. *)
Theorem low_confidence_audit_is_queued (rules : CleanlinessRules.t)
    (fresh : UUID) (now : datetime)
    (vr : VisionAnalysisResult.t) (md : ImageMetadata.t)
    (h : heap) (audit : ref) (self : InMemoryAuditRepository.t) (limit : Z) :
  CleanlinessEvaluator.evaluate rules fresh now vr md None = Ok (h audit) ->
  ConfidenceScore.value (AuditResult.overall_confidence (h audit))
    < CleanlinessRules.confidence_threshold rules ->
  CleanlinessRules.require_review_on_low_confidence rules = true ->
  (Z.of_nat (List.length self) < limit)%Z ->
  In audit (InMemoryAuditRepository.find_pending_reviews h limit
              (InMemoryAuditRepository.save h audit self)) /\
  InMemoryAuditRepository.find_by_id fresh
    (InMemoryAuditRepository.save h audit self) = Some audit.
Proof.
  intros Hev Hlow Hflag Hlimit.
  destruct (evaluate_fresh_audit _ _ _ _ _ _ _ Hev) as (Hid & _ & _ & Hrev & _).
  destruct (evaluate_result rules fresh now vr md None)
    as (r & c & Hev' & _ & Hc & _ & _ & Hst & _).
  rewrite Hev in Hev'. injection Hev' as <-.
  assert (InMemoryAuditRepository.find_by_id fresh
            (InMemoryAuditRepository.save h audit self) = Some audit) as Hfind.
  { unfold InMemoryAuditRepository.find_by_id, InMemoryAuditRepository.save.
    rewrite (dict_get_set Z.eqb Z_eqb_eq), Hid. now rewrite Z.eqb_refl. }
  split; [|exact Hfind].
  apply find_pending_reviews_all.
  - pose proof (dict_set_length Z.eqb (AuditResult.audit_id (h audit)) audit
                  self) as Hlen.
    unfold InMemoryAuditRepository.save, InMemoryAuditRepository.t, UUID, ref in *.
    lia.
  - split.
    + apply (dict_get_value Z.eqb fresh). exact Hfind.
    + split; [|exact Hrev].
      rewrite Hst, determine_status_low by (rewrite <- Hc; exact Hlow).
      now rewrite Hflag.
Qed.

Lemma low_confidence_audit_is_queued_witness :
  In 0%nat (InMemoryAuditRepository.find_pending_reviews sample_heap 100
              (InMemoryAuditRepository.save sample_heap 0%nat
                 InMemoryAuditRepository.__init__)) /\
  InMemoryAuditRepository.find_by_id sample_uuid
    (InMemoryAuditRepository.save sample_heap 0%nat
       InMemoryAuditRepository.__init__) = Some 0%nat.
Proof.
  apply (low_confidence_audit_is_queued default_rules sample_uuid sample_time
           car_low_vision sample_metadata sample_heap 0%nat
           InMemoryAuditRepository.__init__ 100%Z).
  - reflexivity.
  - reflexivity.
  - reflexivity.
  - reflexivity.
Defined.

(** ** The storage URI *)

Lemma contains_slash_cons (c : ascii) (s : string) :
  contains "/" (String c s) = false ->
  c <> "/"%char /\ contains "/" s = false.
Proof.
  cbn [contains]. intros H. apply orb_false_iff in H as [Hp Hc].
  split; [|exact Hc]. intros ->. simpl in Hp.
  destruct s; discriminate.
Qed.

Lemma bucket_key_split (b b' k k' : string) :
  contains "/" b = false -> contains "/" b' = false ->
  (b ++ "/" ++ k = b' ++ "/" ++ k')%string -> b = b' /\ k = k'.
Proof.
  revert b'. induction b as [|c b IH]; intros [|c' b'] Hb Hb' E.
  - simpl in E. injection E as E. now split.
  - simpl in E. injection E as Ec _.
    apply contains_slash_cons in Hb' as [Hc' _]. congruence.
  - simpl in E. injection E as Ec _.
    apply contains_slash_cons in Hb as [Hc _]. congruence.
  - simpl in E. injection E as Ec E.
    apply contains_slash_cons in Hb as [_ Hb].
    apply contains_slash_cons in Hb' as [_ Hb'].
    destruct (IH b' Hb Hb' E) as [-> ->]. now subst.
Qed.

(** The storage URI names one location as long as bucket names hold no
    slash: two images with the same URI then have the same bucket and
    the same key.  With a slash in a bucket name it does not: the
    bucket "a/b" with the key "c" and the bucket "a" with the key "b/c"
    share a URI. *)
Theorem s3_uri_injective :
  (forall m m',
      contains "/" (ImageMetadata.s3_bucket m) = false ->
      contains "/" (ImageMetadata.s3_bucket m') = false ->
      ImageMetadata.s3_uri m = ImageMetadata.s3_uri m' ->
      ImageMetadata.s3_bucket m = ImageMetadata.s3_bucket m' /\
      ImageMetadata.s3_key m = ImageMetadata.s3_key m') /\
  (exists m m',
      ImageMetadata.s3_uri m = ImageMetadata.s3_uri m' /\
      ImageMetadata.s3_bucket m <> ImageMetadata.s3_bucket m').
Proof.
  split.
  - intros m m' Hb Hb' E. unfold ImageMetadata.s3_uri in E.
    cbn [append] in E. injection E as E.
    now apply bucket_key_split.
  - exists slash_bucket_metadata, slash_key_metadata.
    split; [reflexivity | discriminate].
Qed.

(** ** Audits analysed at the same instant *)

Lemma analysed_at_Qeq (h : heap) (t : datetime) (a : ref) :
  analysed_at h t a
  = Qeq_bool (inject_Z (AuditResult.analyzed_at (h a))) (inject_Z t).
Proof.
  unfold analysed_at. apply eq_true_iff_eq.
  rewrite Z.eqb_eq, Qeq_bool_iff. unfold Qeq. simpl. lia.
Qed.

(** Both queries keep the audits of one instant of analysis in the
    order in which their identities were first saved: the sort by time
    is stable, and the cut takes a leading part of the sorted list. *)
Theorem queries_keep_order_of_ties (h : heap)
    (dealer_id checkpoint_id : string) (limit : Z) (t : datetime)
    (self : InMemoryAuditRepository.t) :
  (exists rest,
      filter (analysed_at h t)
        (InMemoryAuditRepository.find_by_dealer_and_checkpoint
           h dealer_id checkpoint_id limit self ++ rest)
      = filter (analysed_at h t)
          (filter (at_checkpointb h dealer_id checkpoint_id) (dict_values self)))
  /\
  (exists rest,
      filter (analysed_at h t)
        (InMemoryAuditRepository.find_pending_reviews h limit self ++ rest)
      = filter (analysed_at h t)
          (filter (fun a =>
                     status_eqb (AuditResult.status (h a)) REQUIRES_MANUAL_REVIEW
                     && negb (AuditResult.is_finalized (h a)))
                  (dict_values self))).
Proof.
  split.
  - unfold InMemoryAuditRepository.find_by_dealer_and_checkpoint.
    fold (at_checkpointb h dealer_id checkpoint_id).
    set (p := at_checkpointb h dealer_id checkpoint_id).
    set (srt := sorted_desc (fun x => inject_Z (AuditResult.analyzed_at (h x)))).
    destruct (query_shape p srt limit (dict_values self)) as (rest & Heq & _).
    { intros l. apply sorted_desc_perm. }
    exists rest. rewrite Heq. unfold srt.
    rewrite !(filter_ext _ _ (analysed_at_Qeq h t)).
    apply (sorted_desc_stable
             (fun x => inject_Z (AuditResult.analyzed_at (h x))) (inject_Z t)).
  - unfold InMemoryAuditRepository.find_pending_reviews.
    set (p := fun audit : ref => (_ && _)%bool).
    set (srt := sorted_asc (fun x => inject_Z (AuditResult.analyzed_at (h x)))).
    destruct (query_shape p srt limit (dict_values self)) as (rest & Heq & _).
    { intros l. apply sorted_asc_perm. }
    exists rest. rewrite Heq. unfold srt.
    rewrite !(filter_ext _ _ (analysed_at_Qeq h t)).
    apply (sorted_asc_stable
             (fun x => inject_Z (AuditResult.analyzed_at (h x))) (inject_Z t)).
Qed.

(** ** The upload checks of the vision route *)

Lemma size_mb_over (n : nat) :
  negb (Qle_bool (inject_Z (Z.of_nat n) / (1024 * 1024)) 15) = true
  <-> (15 * 1024 * 1024 < Z.of_nat n)%Z.
Proof.
  rewrite negb_true_iff, <- not_true_iff_false, Qle_bool_iff.
  assert (inject_Z (Z.of_nat n) / (1024 * 1024) <= 15
          <-> (Z.of_nat n <= 15 * 1024 * 1024)%Z) as ->.
  { rewrite Zle_Qle.
    change (inject_Z (15 * 1024 * 1024)) with (15 * (1024 * 1024)).
    split; intros H.
    - setoid_replace (inject_Z (Z.of_nat n))
        with (inject_Z (Z.of_nat n) / (1024 * 1024) * (1024 * 1024))
        by (field; discriminate).
      apply Qmult_le_compat_r; [exact H | discriminate].
    - apply Qle_shift_div_r; [reflexivity | exact H]. }
  lia.
Qed.

(** The checks on an upload come in this order.  A content type other
    than JPEG and PNG, or none, is refused with 400, whatever the size.
    Of the others an image of more than 15 * 1024 * 1024 bytes is
    refused with 413, and the rest of the route runs on an image of at
    most that size, which is the size [is_valid_for_analysis] accepts:
    what the route lets through, the size rule of the domain accepts. *)
Theorem upload_checks (Response : Type)
    (proceed : string -> string -> option string -> list Byte.byte -> Q -> Q
               -> VisionRoute.outcome Response)
    (dealer_id checkpoint_id : string) (content_type : option string)
    (image_bytes : list Byte.byte) (min_confidence : Q) :
  let outcome :=
    VisionRoute.analyze_with_gemini proceed dealer_id checkpoint_id
      content_type image_bytes min_confidence in
  let size := Z.of_nat (List.length image_bytes) in
  (content_type <> Some "image/jpeg"%string ->
   content_type <> Some "image/png"%string ->
   outcome = VisionRoute.HTTPException 400
               "Invalid image format. Must be JPEG or PNG.") /\
  (content_type = Some "image/jpeg"%string \/
   content_type = Some "image/png"%string ->
   ((15 * 1024 * 1024 < size)%Z ->
    exists detail, outcome = VisionRoute.HTTPException 413 detail) /\
   ((size <= 15 * 1024 * 1024)%Z ->
    outcome = proceed dealer_id checkpoint_id content_type image_bytes
                min_confidence (inject_Z size / (1024 * 1024)) /\
    forall m, ImageMetadata.file_size_bytes m = size ->
              ImageMetadata.width_px m = None ->
              ImageMetadata.is_valid_for_analysis m = true)).
Proof.
  cbv zeta. unfold VisionRoute.analyze_with_gemini. split.
  - intros Hj Hp.
    assert (VisionRoute.content_type_in content_type
              ["image/jpeg"%string; "image/png"%string] = false) as ->.
    { destruct content_type as [c|]; [|reflexivity]. cbn.
      destruct (String.eqb_spec c "image/jpeg"); [congruence|].
      destruct (String.eqb_spec c "image/png"); [congruence|]. reflexivity. }
    reflexivity.
  - intros Hct.
    assert (VisionRoute.content_type_in content_type
              ["image/jpeg"%string; "image/png"%string] = true) as ->
      by (destruct Hct as [-> | ->]; reflexivity).
    cbn [negb].
    pose proof (size_mb_over (List.length image_bytes)) as Hover.
    destruct (negb (Qle_bool _ 15)) eqn:E.
    + split; [intros _; eauto|]. intros Hle.
      pose proof (proj1 Hover eq_refl). lia.
    + split.
      * intros Hgt. apply Hover in Hgt. discriminate.
      * intros Hle. split; [reflexivity|].
        intros m Hsize Hw. unfold ImageMetadata.is_valid_for_analysis.
        rewrite Hsize, Hw.
        destruct (Z.gtb_spec (Z.of_nat (List.length image_bytes))
                    (15 * 1024 * 1024)); [lia | reflexivity].
Qed.

(** ** The arguments of the constructor *)

(** What the constructor makes of two of its arguments.  The
    [negative_labels] argument is ignored: whatever list is given, or
    none, the audit built is the same.  A [reason] that is given and
    not empty is kept as it is, whatever the status; an empty string
    counts as no reason, and the reason is then the one generated for
    the status. *)
Theorem constructor_derives_fields (fresh : UUID) (now : datetime)
    (md : ImageMetadata.t) (detected : list DetectedLabel.t)
    (confidence : ConfidenceScore.t) (status : CleanlinessStatus)
    (kw : AuditResult.kwargs) :
  let built := AuditResult.new fresh now md detected confidence status kw in
  (forall negatives,
      AuditResult.new fresh now md detected confidence status
        (AuditResult.mk_kwargs
           (AuditResult.kw_audit_id kw) negatives (AuditResult.kw_reason kw)
           (AuditResult.kw_analyzed_at kw) (AuditResult.kw_reviewed_by kw)
           (AuditResult.kw_reviewed_at kw) (AuditResult.kw_manual_override kw)
           (AuditResult.kw_vision_provider kw) (AuditResult.kw_model_version kw))
      = built) /\
  (forall s, AuditResult.kw_reason kw = Some s -> s <> ""%string ->
             AuditResult.reason built = Some s) /\
  (AuditResult.kw_reason kw = None \/ AuditResult.kw_reason kw = Some ""%string ->
   AuditResult.reason built = Some (AuditResult._generate_reason built)).
Proof.
  cbv zeta. split; [|split].
  - intros negatives. reflexivity.
  - intros s Hs Hne. unfold AuditResult.new, AuditResult.__post_init__.
    cbn. rewrite Hs. destruct s; [congruence | reflexivity].
  - intros H. unfold AuditResult.new, AuditResult.__post_init__. cbn.
    destruct H as [-> | ->]; reflexivity.
Qed.
